(** * cdpflare: SQL guard and DuckDB HTTP adapter

    A shallow embedding of
    - [packages/sql-guard/src/validator.ts] and [identifier.ts], and
    - [packages/duckdb-http-adapter/src/result.ts], [prepared.ts] and
      [connection.ts],
    together with the properties of the specification that concern them.

    Modelling conventions.
    - A JavaScript string is a [string]: a sequence of code units, each below
      256 (the Latin-1 part of UTF-16).  Code units above 255 are outside the
      model.
    - A JavaScript number is a [Z]: the model covers integral values whose
      decimal rendering is exact; fractions, NaN and the infinities are
      outside it unless stated otherwise.
    - Code that can throw lives in the monad [Completion]: [Returned v] is a
      normal completion, [Raised e] an abrupt one.  A rejected promise of an
      [async] function is a [Raised] completion as well. *)

From Stdlib Require Import ZArith NArith Ascii String List Bool Lia.
From stdpp Require Import base decidable option list strings pretty gmap.

Local Open Scope Z_scope.
Set Warnings "-register-all".

(** ** Completions: values thrown, values returned *)

(** What a [catch] clause can receive.  [JsError] is an instance of [Error]
    with its [name] and [message]; [ThrownValue text] is any other thrown
    value, [text] being what [String(err)] yields for it. *)
Inductive Thrown : Type :=
  | JsError (name message : string)
  | ThrownValue (text : string).

Inductive Completion (A : Type) : Type :=
  | Returned (a : A)
  | Raised (e : Thrown).
Arguments Returned {A} a.
Arguments Raised {A} e.

Global Instance completion_ret : MRet Completion := λ A a, Returned a.

Global Instance completion_bind : MBind Completion := λ A B k c,
  match c with
  | Returned a => k a
  | Raised e => Raised e
  end.

(** ** The JavaScript string primitives the code calls *)

Module Js.

Definition code (c : ascii) : N := N_of_ascii c.

Definition in_range (lo hi : N) (c : ascii) : bool :=
  ((lo <=? code c) && (code c <=? hi))%N.

(** WhiteSpace and LineTerminator code units below 256: TAB, LF, VT, FF, CR,
    SP and NBSP.  Used by [trim] and by the regular-expression class [\s]. *)
Definition is_space (c : ascii) : bool :=
  in_range 9 13 c || (code c =? 32)%N || (code c =? 160)%N.

(** The class [\w] behind [\b]: letters, digits and the underscore. *)
Definition is_word (c : ascii) : bool :=
  in_range 97 122 c || in_range 65 90 c || in_range 48 57 c || (code c =? 95)%N.

Definition is_upper (c : ascii) : bool :=
  in_range 65 90 c || (in_range 192 222 c && negb (code c =? 215)%N).

(** [String.prototype.toLowerCase] on one code unit: A-Z and the Latin-1
    capitals (codes 192 to 222, the multiplication sign excepted) move up
    by 32. *)
Definition lower (c : ascii) : ascii :=
  if is_upper c then ascii_of_N (code c + 32) else c.

Fixpoint toLowerCase (s : string) : string :=
  match s with
  | EmptyString => EmptyString
  | String c rest => String (lower c) (toLowerCase rest)
  end.

Fixpoint trimStart (s : string) : string :=
  match s with
  | EmptyString => EmptyString
  | String c rest => if is_space c then trimStart rest else s
  end.

Fixpoint trimEnd (s : string) : string :=
  match s with
  | EmptyString => EmptyString
  | String c rest =>
      match trimEnd rest with
      | EmptyString => if is_space c then EmptyString else String c EmptyString
      | kept => String c kept
      end
  end.

Definition trim (s : string) : string := trimEnd (trimStart s).

Fixpoint startsWith (s prefix : string) : bool :=
  match prefix, s with
  | EmptyString, _ => true
  | String p prefix', String c s' => bool_decide (p = c) && startsWith s' prefix'
  | String _ _, EmptyString => false
  end.

(** [s.length] *)
Definition length (s : string) : Z := Z.of_nat (String.length s).

(** [!s] for a string: only the empty string is falsy. *)
Definition falsy (s : string) : bool :=
  match s with EmptyString => true | _ => false end.

(** The double-quote code unit as a string. *)
Definition dquote : string := String (ascii_of_N 34) EmptyString.

(** Template-literal rendering of an integral number. *)
Definition num (z : Z) : string := pretty z.

(** *** Regular expressions

    Canonicalize of the [i] flag (without [u]): the upper-case mapping of a
    code unit when that is a single code unit, except that a code unit of
    128 or more never folds into ASCII.  The result can leave Latin-1
    (micro sign, y with diaeresis), hence a number. *)
Definition canonicalize (c : ascii) : N :=
  let n := code c in
  if in_range 97 122 c then (n - 32)%N
  else if in_range 224 254 c && negb (n =? 247)%N then (n - 32)%N
  else if (n =? 181)%N then 924%N
  else if (n =? 255)%N then 376%N
  else n.

Definition char_matches_i (p c : ascii) : bool :=
  (canonicalize p =? canonicalize c)%N.

(** A literal run of pattern characters under the [i] flag; the rest of the
    input after the run when it matches. *)
Fixpoint match_literal_i (pat s : string) : option string :=
  match pat with
  | EmptyString => Some s
  | String p pat' =>
      match s with
      | String c s' => if char_matches_i p c then match_literal_i pat' s' else None
      | EmptyString => None
      end
  end.

(** [\s*]: greedy, and what follows in the patterns below is never a space,
    so no backtracking into the run can succeed. *)
Fixpoint skip_spaces (s : string) : string :=
  match s with
  | String c rest => if is_space c then skip_spaces rest else s
  | EmptyString => EmptyString
  end.

Definition is_word_opt (c : option ascii) : bool :=
  match c with Some c => is_word c | None => false end.

Definition first (s : string) : option ascii :=
  match s with String c _ => Some c | EmptyString => None end.

(** The assertion [\b] between the previous code unit and the input left. *)
Definition word_boundary (prev : option ascii) (s : string) : bool :=
  xorb (is_word_opt prev) (is_word_opt (first s)).

(** The pattern [\b<func>\s*\(] with flag [i], tried at one position. *)
Definition call_pattern_here (func : string) (prev : option ascii) (s : string) : bool :=
  word_boundary prev s &&
  match match_literal_i func s with
  | Some rest =>
      match skip_spaces rest with
      | String c _ => bool_decide (c = "("%char)
      | EmptyString => false
      end
  | None => false
  end.

(** [new RegExp(`\\b${func}\\s*\\(`, 'i').test(s)]: the pattern is tried at
    every position from the left, the end of the input included. *)
Fixpoint call_pattern_from (func : string) (prev : option ascii) (s : string) : bool :=
  call_pattern_here func prev s ||
  match s with
  | String c rest => call_pattern_from func (Some c) rest
  | EmptyString => false
  end.

Definition call_pattern_test (func s : string) : bool :=
  call_pattern_from func None s.

(** [s.split(sep)] for a separator that is not empty: the pieces between the
    occurrences of [sep], found from the left and not overlapping.  [skip]
    counts the code units of the occurrence being stepped over. *)
Fixpoint split_go (sep : string) (skip : nat) (s : string) : list string :=
  match s with
  | EmptyString => [EmptyString]
  | String c rest =>
      match skip with
      | S k => split_go sep k rest
      | O =>
          if startsWith s sep
          then EmptyString :: split_go sep (String.length sep - 1) rest
          else match split_go sep 0 rest with
               | piece :: pieces => String c piece :: pieces
               | [] => [String c EmptyString]
               end
      end
  end.

Fixpoint chars (s : string) : list string :=
  match s with
  | EmptyString => []
  | String c rest => String c EmptyString :: chars rest
  end.

Definition split (s sep : string) : list string :=
  match sep with
  | EmptyString => chars s
  | _ => split_go sep 0 s
  end.

(** [pieces.join(sep)] *)
Fixpoint join (pieces : list string) (sep : string) : string :=
  match pieces with
  | [] => EmptyString
  | [piece] => piece
  | piece :: rest => piece +:+ sep +:+ join rest sep
  end.

(** [/^[a-zA-Z_][a-zA-Z0-9_]*$/.test(s)] *)
Definition is_ident_start (c : ascii) : bool :=
  in_range 97 122 c || in_range 65 90 c || (code c =? 95)%N.

Definition is_ident_part (c : ascii) : bool :=
  in_range 97 122 c || in_range 65 90 c || in_range 48 57 c || (code c =? 95)%N.

Fixpoint all_code_units (p : ascii → bool) (s : string) : bool :=
  match s with
  | EmptyString => true
  | String c rest => p c && all_code_units p rest
  end.

Definition identifier_pattern_test (s : string) : bool :=
  match s with
  | String c rest => is_ident_start c && all_code_units is_ident_part rest
  | EmptyString => false
  end.

End Js.


(** ** packages/sql-guard *)

Module SqlGuard.

(** *** validator.ts *)

(** [SqlGuardConfig]: every field is optional; a field is absent or holds a
    value of its type. *)
Record SqlGuardConfig : Type := {
  selectOnly : option bool;
  maxQueryLength : option Z;
  blockDangerousFunctions : option bool;
}.

(** [Required<SqlGuardConfig>] *)
Record RequiredSqlGuardConfig : Type := {
  req_selectOnly : bool;
  req_maxQueryLength : Z;
  req_blockDangerousFunctions : bool;
}.

Record ValidationResult : Type := {
  valid : bool;
  errors : list string;
  statementType : option string;
}.

Definition DEFAULT_CONFIG : RequiredSqlGuardConfig :=
  {| req_selectOnly := true;
     req_maxQueryLength := 10000;
     req_blockDangerousFunctions := true |}.

(** [{ ...DEFAULT_CONFIG, ...config }] *)
Definition spread (config : option SqlGuardConfig) : RequiredSqlGuardConfig :=
  match config with
  | None => DEFAULT_CONFIG
  | Some c =>
      {| req_selectOnly := default (req_selectOnly DEFAULT_CONFIG) (selectOnly c);
         req_maxQueryLength := default (req_maxQueryLength DEFAULT_CONFIG) (maxQueryLength c);
         req_blockDangerousFunctions :=
           default (req_blockDangerousFunctions DEFAULT_CONFIG) (blockDangerousFunctions c) |}
  end.

Definition DANGEROUS_FUNCTIONS : list string :=
  [ "read_csv"; "read_csv_auto"; "read_json"; "read_json_auto"; "read_parquet";
    "read_blob"; "write_csv"; "write_parquet"; "write_json";
    "copy"; "export_database"; "import_database"; "load"; "install";
    "load_extension"; "install_extension" ].

(** One entry of what [identify] of sql-query-identifier returns; only the
    two fields the validator reads.  The package declares both as strings
    but leaves them [undefined], here [None], on a statement it cannot
    classify, such as the text [CREATE] alone. *)
Record Result : Type := {
  type : option string;
  executionType : option string;
}.

(** The error of the method call [type.startsWith(...)] on [undefined]. *)
Definition startsWith_of_undefined : Thrown :=
  JsError "TypeError" "Cannot read properties of undefined (reading 'startsWith')".

(** [isAllowedStatementType(type)]: the comparison with ['SELECT'] is false
    of [undefined], and the method call then throws. *)
Definition isAllowedStatementType (type : option string) : Completion bool :=
  if bool_decide (type = Some "SELECT") then mret true
  else
    match type with
    | Some type => if Js.startsWith type "SHOW_" then mret true else mret false
    | None => Raised startsWith_of_undefined
    end.

(** [${stmt.type}] in a template literal *)
Definition type_text (type : option string) : string := default "undefined" type.

Definition dangerous_function_error (func : string) : string :=
  "Function '" +:+ func +:+ "' is not allowed for security reasons".

(** [err instanceof Error ? err.message : String(err)] *)
Definition error_text (err : Thrown) : string :=
  match err with
  | JsError _ message => message
  | ThrownValue text => text
  end.

Section Validator.

(** [identify(sql, { dialect: 'psql', strict: false })] of the external
    package sql-query-identifier: it returns the classified statements or
    throws. *)
Variable identify : string → Completion (list Result).

Definition validateSql (sql : string) (config : option SqlGuardConfig)
  : Completion ValidationResult :=
  let cfg := spread config in
  let errors : list string := [] in
  if Js.falsy sql || (Js.length (Js.trim sql) =? 0) then
    mret {| valid := false; errors := ["SQL query is empty"]; statementType := None |}
  else if Js.length sql >? req_maxQueryLength cfg then
    mret {| valid := false;
            errors := ["Query exceeds maximum length of "
                         +:+ Js.num (req_maxQueryLength cfg) +:+ " bytes"];
            statementType := None |}
  else
    match identify sql with
    | Raised err =>
        mret {| valid := false;
                errors := ["Failed to parse SQL: " +:+ error_text err];
                statementType := None |}
    | Returned statements =>
        if (1 <? length statements)%nat then
          mret {| valid := false;
                  errors := ["Multiple statements are not allowed"];
                  statementType := None |}
        else if (length statements =? 0)%nat then
          mret {| valid := false;
                  errors := ["Unable to identify SQL statement type"];
                  statementType := None |}
        else
          match statements !! 0%nat with
          | None =>
              Raised (JsError "TypeError" "Cannot read properties of undefined")
          | Some stmt =>
              refused ←
                (if req_selectOnly cfg
                 then allowed ← isAllowedStatementType (type stmt); mret (negb allowed)
                 else mret false);
              let errors :=
                if refused : bool
                then errors ++ [type_text (type stmt) +:+
                  " statements are not allowed. Only SELECT and SHOW statements are permitted."]
                else errors in
              let errors :=
                if bool_decide (executionType stmt = Some "MODIFICATION")
                then errors ++ ["Write operations (" +:+ type_text (type stmt)
                                  +:+ ") are not allowed"]
                else errors in
              let errors :=
                if req_blockDangerousFunctions cfg then
                  let sqlLower := Js.toLowerCase sql in
                  foldl (λ errors func,
                           if Js.call_pattern_test func sqlLower
                           then errors ++ [dangerous_function_error func]
                           else errors)
                        errors DANGEROUS_FUNCTIONS
                else errors in
              mret {| valid := bool_decide (length errors = 0%nat);
                      errors := errors;
                      statementType := type stmt |}
          end
    end.

Definition isReadOnlyQuery (sql : string) : Completion bool :=
  result ← validateSql sql
    (Some {| selectOnly := Some true; maxQueryLength := None;
             blockDangerousFunctions := None |});
  mret (valid result).

End Validator.

(** *** identifier.ts *)

Record IdentifierValidationResult : Type := {
  id_valid : bool;
  error : option string;
  sanitized : option string;
}.

Record IdentifierConfig : Type := {
  allowedNamespaces : option (list string);
  maxLength : option Z;
}.

(** [Required<IdentifierConfig>] *)
Record RequiredIdentifierConfig : Type := {
  req_allowedNamespaces : list string;
  req_maxLength : Z;
}.

Definition DEFAULT_IDENTIFIER_CONFIG : RequiredIdentifierConfig :=
  {| req_allowedNamespaces := ["analytics"]; req_maxLength := 63 |}.

(** [{ ...DEFAULT_IDENTIFIER_CONFIG, ...config }] *)
Definition spread_identifier (config : option IdentifierConfig) : RequiredIdentifierConfig :=
  match config with
  | None => DEFAULT_IDENTIFIER_CONFIG
  | Some c =>
      {| req_allowedNamespaces :=
           default (req_allowedNamespaces DEFAULT_IDENTIFIER_CONFIG) (allowedNamespaces c);
         req_maxLength := default (req_maxLength DEFAULT_IDENTIFIER_CONFIG) (maxLength c) |}
  end.

Definition SQL_KEYWORDS : gset string :=
  list_to_set
    [ "select"; "from"; "where"; "and"; "or"; "not"; "in"; "is"; "null";
      "true"; "false"; "like"; "between"; "exists"; "case"; "when"; "then";
      "else"; "end"; "join"; "inner"; "outer"; "left"; "right"; "full";
      "cross"; "on"; "as"; "order"; "by"; "group"; "having"; "limit";
      "offset"; "union"; "intersect"; "except"; "all"; "distinct";
      "insert"; "into"; "values"; "update"; "set"; "delete"; "drop";
      "create"; "alter"; "table"; "index"; "view"; "database"; "schema";
      "truncate"; "grant"; "revoke"; "primary"; "key"; "foreign"; "references";
      "constraint"; "default"; "check"; "unique"; "cascade"; "restrict" ].

Definition validateIdentifier (identifier : string) (config : option IdentifierConfig)
  : IdentifierValidationResult :=
  let cfg := spread_identifier config in
  if Js.falsy identifier || (Js.length (Js.trim identifier) =? 0) then
    {| id_valid := false; error := Some "Identifier is empty"; sanitized := None |}
  else
    let trimmed := Js.trim identifier in
    if Js.length trimmed >? req_maxLength cfg then
      {| id_valid := false;
         error := Some ("Identifier exceeds maximum length of "
                          +:+ Js.num (req_maxLength cfg) +:+ " characters");
         sanitized := None |}
    else if negb (Js.identifier_pattern_test trimmed) then
      {| id_valid := false;
         error := Some "Identifier must start with a letter or underscore and contain only letters, digits, or underscores";
         sanitized := None |}
    else if bool_decide (Js.toLowerCase trimmed ∈ SQL_KEYWORDS) then
      {| id_valid := false;
         error := Some ("'" +:+ trimmed +:+ "' is a SQL reserved keyword");
         sanitized := None |}
    else
      {| id_valid := true; error := None; sanitized := Some trimmed |}.

Definition validateNamespace (namespace : string) (config : option IdentifierConfig)
  : IdentifierValidationResult :=
  let cfg := spread_identifier config in
  let result := validateIdentifier namespace config in
  if negb (id_valid result) then result
  else if (0 <? length (req_allowedNamespaces cfg))%nat then
    let normalizedNamespace := Js.toLowerCase namespace in
    let allowed := map Js.toLowerCase (req_allowedNamespaces cfg) in
    if negb (bool_decide (normalizedNamespace ∈ allowed)) then
      {| id_valid := false;
         error := Some ("Namespace '" +:+ namespace +:+ "' is not in the allowed list: ["
                          +:+ Js.join (req_allowedNamespaces cfg) ", " +:+ "]");
         sanitized := None |}
    else result
  else result.

(** [`${x}`] for a field that may be absent. *)
Definition template (x : option string) : string := default "undefined" x.

Definition validateQualifiedTableName (qualifiedName : string) (config : option IdentifierConfig)
  : IdentifierValidationResult :=
  match Js.split qualifiedName "." with
  | [namespace; tableName] =>
      let nsResult := validateNamespace namespace config in
      if negb (id_valid nsResult) then
        {| id_valid := false;
           error := Some ("Invalid namespace: " +:+ template (error nsResult));
           sanitized := None |}
      else
        let tableResult := validateIdentifier tableName config in
        if negb (id_valid tableResult) then
          {| id_valid := false;
             error := Some ("Invalid table name: " +:+ template (error tableResult));
             sanitized := None |}
        else
          {| id_valid := true; error := None;
             sanitized := Some (template (sanitized nsResult) +:+ "."
                                  +:+ template (sanitized tableResult)) |}
  | _ =>
      {| id_valid := false;
         error := Some ("Qualified table name must be in format "
                          +:+ Js.dquote +:+ "namespace.table" +:+ Js.dquote);
         sanitized := None |}
  end.

End SqlGuard.

(** ** packages/duckdb-http-adapter *)

Module Adapter.

(** *** types.ts

    [DuckDBValue]: null, boolean, number, bigint, string, Date, Uint8Array,
    arrays and keyed objects.  A [Date] holds its time value in milliseconds,
    [None] for an Invalid Date.  The fields of an object are kept in
    insertion order, with pairwise distinct keys.  The decoded JSON cells of
    a response are values of this type as well. *)
Inductive Value : Type :=
  | VNull
  | VBool (b : bool)
  | VNumber (n : Z)
  | VBigInt (n : Z)
  | VString (s : string)
  | VDate (time : option Z)
  | VBytes (bytes : list Byte.byte)
  | VArray (items : list Value)
  | VObject (fields : list (string * Value)).

(** The parts of the JavaScript runtime that are left abstract: ISO-8601
    rendering of a valid time value, [JSON.stringify], the floating-point
    grammar behind [Number(text)], and the conversion of an object operand
    (array, keyed object, Date, byte array) by [BigInt(...)] and
    [Number(...)]. *)
Class Host : Type := {
  toISOString : Z → string;
  JSON_stringify : Value → Completion string;
  StringToNumber : string → option Z;
  ObjectToBigInt : Value → Completion Z;
  ObjectToNumber : Value → Completion (option Z);
}.

(** **** Value tests of the language *)

Definition truthy (v : Value) : bool :=
  match v with
  | VNull => false
  | VBool b => b
  | VNumber n | VBigInt n => negb (n =? 0)
  | VString s => negb (Js.falsy s)
  | VDate _ | VBytes _ | VArray _ | VObject _ => true
  end.

Definition typeof (v : Value) : string :=
  match v with
  | VBool _ => "boolean"
  | VNumber _ => "number"
  | VBigInt _ => "bigint"
  | VString _ => "string"
  | VNull | VDate _ | VBytes _ | VArray _ | VObject _ => "object"
  end.

Definition isArray (v : Value) : bool :=
  match v with VArray _ => true | _ => false end.

(** [obj[key]]: the own field, [None] for [undefined]. *)
Fixpoint get (key : string) (fields : list (string * Value)) : option Value :=
  match fields with
  | [] => None
  | (k, v) :: rest => if bool_decide (k = key) then Some v else get key rest
  end.

(** [key in obj] for the keys [micros] and [days], which no prototype of a
    Date, a byte array or a keyed object defines. *)
Definition has (key : string) (obj : Value) : bool :=
  match obj with
  | VObject fields => bool_decide (is_Some (get key fields))
  | _ => false
  end.

(** [Object.keys(obj)] *)
Definition keys (obj : Value) : list string :=
  match obj with
  | VObject fields => map fst fields
  | VBytes bytes => map (λ i, Js.num (Z.of_nat i)) (seq 0 (length bytes))
  | _ => []
  end.

(** [obj.key] of a keyed object, [None] for [undefined]. *)
Definition field (key : string) (obj : Value) : option Value :=
  match obj with
  | VObject fields => get key fields
  | _ => None
  end.

(** **** [BigInt(...)] and [Number(...)] *)

Definition digit_value (c : ascii) : option Z :=
  let n := Z.of_N (Js.code c) in
  if Js.in_range 48 57 c then Some (n - 48)
  else if Js.in_range 97 102 c then Some (n - 87)
  else if Js.in_range 65 70 c then Some (n - 55)
  else None.

Fixpoint parse_digits (base acc : Z) (s : string) : option Z :=
  match s with
  | EmptyString => Some acc
  | String c rest =>
      match digit_value c with
      | Some d => if d <? base then parse_digits base (acc * base + d) rest else None
      | None => None
      end
  end.

(** One digit at least. *)
Definition parse_number (base : Z) (s : string) : option Z :=
  match s with
  | EmptyString => None
  | _ => parse_digits base 0 s
  end.

(** StringToBigInt: white space around the literal is dropped, the empty
    literal is zero, a decimal literal may carry a sign, and the prefixes
    0x, 0o and 0b select another base. *)
Definition StringToBigInt (s : string) : option Z :=
  match Js.trim s with
  | EmptyString => Some 0
  | String "+" digits => parse_number 10 digits
  | String "-" digits => Z.opp <$> parse_number 10 digits
  | String "0" (String ("x" | "X") digits) => parse_number 16 digits
  | String "0" (String ("o" | "O") digits) => parse_number 8 digits
  | String "0" (String ("b" | "B") digits) => parse_number 2 digits
  | digits => parse_number 10 digits
  end%char.

Section WithHost.
Context `{Host}.

Definition BigInt (v : Value) : Completion Z :=
  match v with
  | VNull => Raised (JsError "TypeError" "Cannot convert null to a BigInt")
  | VBool b => mret (if b then 1 else 0)
  | VNumber n | VBigInt n => mret n
  | VString s =>
      match StringToBigInt s with
      | Some n => mret n
      | None => Raised (JsError "SyntaxError" ("Cannot convert " +:+ s +:+ " to a BigInt"))
      end
  | VDate _ | VBytes _ | VArray _ | VObject _ => ObjectToBigInt v
  end.

(** [None] is NaN. *)
Definition Number (v : Value) : Completion (option Z) :=
  match v with
  | VNull => mret (Some 0)
  | VBool b => mret (Some (if b then 1 else 0))
  | VNumber n | VBigInt n => mret (Some n)
  | VString s => mret (StringToNumber s)
  | VDate _ | VBytes _ | VArray _ | VObject _ => ObjectToNumber v
  end.

(** [new Date(millis)]: TimeClip leaves an Invalid Date beyond 8.64e15 ms.
    Up to that bound every integer is an exact double, so [Number(...)] of a
    BigInt and the products of a day count are exact there; beyond it they
    round to values that are beyond it too. *)
Definition new_Date (millis : option Z) : Value :=
  VDate (millis ≫= λ t, if Z.abs t <=? 8640000000000000 then Some t else None).

(** *** result.ts *)

Definition transformValue (value : Value) : Completion Value :=
  if truthy value && bool_decide (typeof value = "object") && negb (isArray value) then
    let obj := value in
    if has "micros" obj && (length (keys obj) =? 1)%nat then
      micros ← BigInt (default VNull (field "micros" obj));
      let millis := Some (micros ÷ 1000) in
      mret (new_Date millis)
    else if has "days" obj && (length (keys obj) =? 1)%nat then
      days ← Number (default VNull (field "days" obj));
      let millis := (λ d, d * 24 * 60 * 60 * 1000) <$> days in
      mret (new_Date millis)
    else mret value
  else mret value.

Record HttpQueryResult : Type := {
  columns : list string;
  rows : list (list Value);
}.

(** [row[col] ?? null] *)
Definition cell (row : list (string * Value)) (col : string) : Value :=
  default VNull (get col row).

(** [new HttpQueryResult(columns, data)] *)
Definition HttpQueryResult_new (columns : list string) (data : list (list (string * Value)))
  : Completion HttpQueryResult :=
  rows ← mapM (λ row, mapM (λ col, transformValue (cell row col)) columns) data;
  mret {| columns := columns; rows := rows |}.

Definition columnNames (r : HttpQueryResult) : list string := columns r.

(** The callback of [this.columns.map] with the map [seen] it updates. *)
Fixpoint dedup_names (seen : gmap string Z) (names : list string) : list string :=
  match names with
  | [] => []
  | name :: rest =>
      let count := default 0 (seen !! name) in
      let seen := <[name := count + 1]> seen in
      (if count =? 0 then name else name +:+ "_" +:+ Js.num count)
        :: dedup_names seen rest
  end.

Definition deduplicatedColumnNames (r : HttpQueryResult) : list string :=
  let seen : gmap string Z := ∅ in
  dedup_names seen (columns r).

Definition getRowsJS (r : HttpQueryResult) : Completion (list (list Value)) :=
  mret (rows r).

End WithHost.

(** *** prepared.ts *)

Module HttpPreparedStatement.

(** The statement object: [R] is what the executor's promise resolves to. *)
Record t (R : Type) : Type := {
  query : string;
  executor : string → list Value → Completion R;
  boundValues : list Value;
  destroyed : bool;
}.
Arguments query {R}.
Arguments executor {R}.
Arguments boundValues {R}.
Arguments destroyed {R}.

Section Methods.
Context {R : Type}.

(** [new HttpPreparedStatement(query, executor)] *)
Definition new (query : string) (executor : string → list Value → Completion R) : t R :=
  {| query := query; executor := executor; boundValues := []; destroyed := false |}.

(** [bind(...values)]: the statement after the call, or the error thrown. *)
Definition bind (this : t R) (values : list Value) : Completion (t R) :=
  if destroyed this then
    Raised (JsError "Error" "Cannot bind to destroyed prepared statement")
  else
    mret {| query := query this; executor := executor this;
            boundValues := values; destroyed := destroyed this |}.

(** [run()]: the promise returned, a rejection being [Raised]. *)
Definition run (this : t R) : Completion R :=
  if destroyed this then
    Raised (JsError "Error" "Cannot run destroyed prepared statement")
  else executor this (query this) (boundValues this).

Definition destroySync (this : t R) : t R :=
  {| query := query this; executor := executor this;
     boundValues := []; destroyed := true |}.

(** A caller's use of the object, one call after the other.  A call that
    throws leaves the object as it was. *)
Inductive call : Type :=
  | Bind (values : list Value)
  | Run
  | DestroySync.

Definition after (this : t R) (c : call) : t R :=
  match c with
  | Bind values =>
      match bind this values with
      | Returned this' => this'
      | Raised _ => this
      end
  | Run => this
  | DestroySync => destroySync this
  end.

Definition after_all (this : t R) (cs : list call) : t R := foldl after this cs.

End Methods.

End HttpPreparedStatement.

(** *** connection.ts *)

Section Connection.
Context `{Host}.

(** [value.replace(/'/g, "''")] *)
Fixpoint double_quotes (s : string) : string :=
  match s with
  | EmptyString => EmptyString
  | String c rest =>
      if bool_decide (c = "'"%char) then String c (String c (double_quotes rest))
      else String c (double_quotes rest)
  end.

Definition hex_digit (n : N) : ascii :=
  ascii_of_N (if (n <? 10)%N then n + 48 else n + 87).

(** [b.toString(16).padStart(2, '0')] *)
Definition hex_byte (b : Byte.byte) : string :=
  let n := Byte.to_N b in
  String (hex_digit (n / 16)) (String (hex_digit (n mod 16)) EmptyString).

Definition toISOString_checked (time : option Z) : Completion string :=
  match time with
  | Some t => mret (toISOString t)
  | None => Raised (JsError "RangeError" "Invalid time value")
  end.

Fixpoint formatValue (value : Value) : Completion string :=
  match value with
  | VNull => mret "NULL"
  | VBool b => mret (if b then "TRUE" else "FALSE")
  | VNumber n => mret (Js.num n)
  | VBigInt n => mret (Js.num n)
  | VString s => mret ("'" +:+ double_quotes s +:+ "'")
  | VDate time =>
      iso ← toISOString_checked time;
      mret ("'" +:+ iso +:+ "'")
  | VBytes bytes =>
      let hex := Js.join (map hex_byte bytes) "" in
      mret ("'\x" +:+ hex +:+ "'::BLOB")
  | VArray items =>
      match items with
      | [VNumber n] => mret (Js.num n)
      | _ =>
          formatted ← mapM formatValue items;
          mret ("[" +:+ Js.join formatted ", " +:+ "]")
      end
  | VObject _ =>
      json ← JSON_stringify value;
      mret ("'" +:+ double_quotes json +:+ "'::JSON")
  end.

(** The body of the [for] loop of [substituteParams], from index [i] on. *)
Fixpoint substitute_from (i : nat) (params : list Value) (result : string)
  : Completion string :=
  match params with
  | [] => mret result
  | param :: rest =>
      let placeholder := "$" +:+ Js.num (Z.of_nat i + 1) in
      value ← formatValue param;
      substitute_from (S i) rest (Js.join (Js.split result placeholder) value)
  end.

Definition substituteParams (query : string) (params : list Value) : Completion string :=
  if (length params =? 0)%nat then mret query
  else substitute_from 0 params query.

End Connection.

End Adapter.

(** ** packages/duckdb-http-adapter: the streaming result and the requests *)

Module Driver.
Import Adapter.

(** *** result.ts: [HttpStreamResult] *)

Record HttpStreamResult : Type := {
  stream_columns : list string;
  stream_rows : list (list Value);
}.

Section Stream.
Context `{Host}.

(** [new HttpStreamResult(columns, data)] *)
Definition HttpStreamResult_new (columns : list string) (data : list (list (string * Value)))
  : Completion HttpStreamResult :=
  rows ← mapM (λ row, mapM (λ col, transformValue (cell row col)) columns) data;
  mret {| stream_columns := columns; stream_rows := rows |}.

Definition stream_columnNames (r : HttpStreamResult) : list string := stream_columns r.

(** [Symbol.asyncIterator]: what the loop [for (const row of this.rows) yield row]
    has yielded when the iteration is over, in order. *)
Definition yielded (r : HttpStreamResult) : list (list Value) :=
  foldl (λ out row, out ++ [row]) [] (stream_rows r).

End Stream.

(** *** connection.ts: the second pass over the query text

    [finalQuery.replace(/\b(limit|offset)\s+\[(\d+)\]/gi, '$1 $2')] *)

(** A literal run under the [i] flag, with the text it matched. *)
Fixpoint capture_literal_i (pat s : string) : option (string * string) :=
  match pat with
  | EmptyString => Some (EmptyString, s)
  | String p pat' =>
      match s with
      | String c s' =>
          if Js.char_matches_i p c
          then (λ mr, (String c (fst mr), snd mr)) <$> capture_literal_i pat' s'
          else None
      | EmptyString => None
      end
  end.

(** A greedy run of a class: the run and what follows it. *)
Fixpoint capture_while (p : ascii → bool) (s : string) : string * string :=
  match s with
  | String c rest =>
      if p c
      then let mr := capture_while p rest in (String c (fst mr), snd mr)
      else (EmptyString, s)
  | EmptyString => (EmptyString, EmptyString)
  end.

(** The class [\d] *)
Definition is_digit (c : ascii) : bool := Js.in_range 48 57 c.

Definition is_empty (s : string) : bool := Js.falsy s.

(** One alternative of the group followed by [\s+\[(\d+)\]]: the two captures
    and the input after the match.  Both runs are greedy and are followed by a
    code unit outside their class, so giving a run back never helps. *)
Definition limit_branch (keyword s : string) : option (string * string * string) :=
  match capture_literal_i keyword s with
  | None => None
  | Some (kw, after_kw) =>
      let spaces := capture_while Js.is_space after_kw in
      if is_empty (fst spaces) then None
      else
        match snd spaces with
        | String c after_open =>
            if bool_decide (c = "["%char) then
              let digits := capture_while is_digit after_open in
              if is_empty (fst digits) then None
              else
                match snd digits with
                | String d after =>
                    if bool_decide (d = "]"%char) then Some (kw, fst digits, after) else None
                | EmptyString => None
                end
            else None
        | EmptyString => None
        end
  end.

(** The whole pattern tried at one position: [limit] first, then [offset]. *)
Definition limit_offset_here (prev : option ascii) (s : string)
  : option (string * string * string) :=
  if Js.word_boundary prev s then
    match limit_branch "limit" s with
    | Some m => Some m
    | None => limit_branch "offset" s
    end
  else None.

(** The global replacement: matches are looked for from the left, the search
    resumes after each match, and a match is written as ['$1 $2'].  [skip]
    counts the code units of the match still to step over. *)
Fixpoint fix_go (prev : option ascii) (skip : nat) (s : string) : string :=
  match s with
  | EmptyString => EmptyString
  | String c rest =>
      match skip with
      | S k => fix_go (Some c) k rest
      | O =>
          match limit_offset_here prev s with
          | Some (kw, digits, after) =>
              kw +:+ " " +:+ digits
                 +:+ fix_go (Some c) (String.length rest - String.length after) rest
          | None => String c (fix_go (Some c) 0 rest)
          end
      end
  end.

Definition fix_limit_offset (query : string) : string := fix_go None 0 query.

(** *** connection.ts: [HttpDuckDBConnection] *)

(** [QueryApiResponse] of types.ts *)
Record QueryApiResponse : Type := {
  success : bool;
  data : option (list (list (string * Value)));
  response_columns : option (list string);
  rowCount : option Z;
  response_error : option string;
}.

(** The part of [RequestInit] the connection fills in; the abort signal is
    not modelled. *)
Record RequestInit : Type := {
  method : string;
  headers : list (string * string);
  body : string;
}.

(** A [Response]: [text()] and [json()] are what the calls complete with. *)
Record Response : Type := {
  ok : bool;
  status : Z;
  statusText : string;
  text : Completion string;
  json : Completion QueryApiResponse;
}.

Definition Fetch : Type := string → RequestInit → Completion Response.

(** [HttpConnectionOptions] of types.ts *)
Record HttpConnectionOptions : Type := {
  endpoint : string;
  token : option string;
  timeout : option Z;
  fetch : option Fetch;
}.

Record HttpDuckDBConnection : Type := {
  this_endpoint : string;
  this_token : option string;
  this_timeout : Z;
  customFetch : option Fetch;
}.

Definition DEFAULT_TIMEOUT : Z := 30000.

(** [endpoint.replace(/\/$/, '')]: the pattern can only match a slash that
    is the last code unit. *)
Fixpoint strip_trailing_slash (s : string) : string :=
  match s with
  | EmptyString => EmptyString
  | String c EmptyString => if bool_decide (c = "/"%char) then EmptyString else s
  | String c rest => String c (strip_trailing_slash rest)
  end.

(** [new HttpDuckDBConnection(options)] *)
Definition HttpDuckDBConnection_new (options : HttpConnectionOptions) : HttpDuckDBConnection :=
  {| this_endpoint := strip_trailing_slash (endpoint options);
     this_token := token options;
     this_timeout := default DEFAULT_TIMEOUT (timeout options);
     customFetch := fetch options |}.

(** [try { body } catch (error) { handler }] *)
Definition try_catch {A} (body : Completion A) (handler : Thrown → Completion A)
  : Completion A :=
  match body with
  | Returned a => Returned a
  | Raised error => handler error
  end.

Section Requests.
Context `{Host}.

(** The ambient [fetch] of the runtime. *)
Variable global_fetch : Fetch.

Definition request_headers (this : HttpDuckDBConnection) : list (string * string) :=
  let headers := [("Content-Type", "application/json")] in
  match this_token this with
  | Some token =>
      if negb (Js.falsy token)
      then headers ++ [("Authorization", "Bearer " +:+ token)]
      else headers
  | None => headers
  end.

Definition fetchQuery (this : HttpDuckDBConnection) (query : string) (params : list Value)
  : Completion QueryApiResponse :=
  let url := this_endpoint this +:+ "/query" in
  let headers := request_headers this in
  finalQuery ← substituteParams query params;
  let finalQuery := fix_limit_offset finalQuery in
  try_catch
    (let fetchFn := default global_fetch (customFetch this) in
     body ← JSON_stringify (VObject [("query", VString finalQuery)]);
     response ← fetchFn url {| method := "POST"; headers := headers; body := body |};
     if negb (ok response) then
       errorBody ← text response;
       Raised (JsError "Error"
                 ("HTTP " +:+ Js.num (status response) +:+ ": "
                    +:+ (if negb (Js.falsy errorBody) then errorBody else statusText response)))
     else
       result ← json response;
       if negb (success result) then
         Raised (JsError "Error" (default "Query execution failed" (response_error result)))
       else mret result)
    (λ error,
       match error with
       | JsError name _ =>
           if bool_decide (name = "AbortError")
           then Raised (JsError "Error"
                          ("Query timeout after " +:+ Js.num (this_timeout this) +:+ "ms"))
           else Raised error
       | ThrownValue _ => Raised error
       end).

Definition executeQuery (this : HttpDuckDBConnection) (query : string) (params : list Value)
  : Completion HttpQueryResult :=
  response ← fetchQuery this query params;
  HttpQueryResult_new (default [] (response_columns response)) (default [] (data response)).

Definition run (this : HttpDuckDBConnection) (query : string) (params : option (list Value))
  : Completion HttpQueryResult :=
  executeQuery this query (default [] params).

Definition stream (this : HttpDuckDBConnection) (query : string) (params : option (list Value))
  : Completion HttpStreamResult :=
  response ← fetchQuery this query (default [] params);
  HttpStreamResult_new (default [] (response_columns response)) (default [] (data response)).

Definition prepare (this : HttpDuckDBConnection) (query : string)
  : HttpPreparedStatement.t HttpQueryResult :=
  HttpPreparedStatement.new query (λ q p, executeQuery this q p).

End Requests.

End Driver.

(** * Vocabulary of the properties *)

Import SqlGuard.
Import Adapter.
Import HttpPreparedStatement.

(** A verdict that rejects with one message and no statement type: the shape
    of every early [return] of [validateSql]. *)
Definition rejected (message : string) : ValidationResult :=
  {| valid := false; errors := [message]; statementType := None |}.

(** The statement on which the [selectOnly] check throws: the option is set
    and the type of the statement is [undefined]. *)
Definition untyped (cfg : RequiredSqlGuardConfig) (stmt : Result) : bool :=
  req_selectOnly cfg && bool_decide (type stmt = None).

(** The [selectOnly] check refuses the statement: the option is set and the
    type of the statement is defined and not allowed. *)
Definition type_refused (cfg : RequiredSqlGuardConfig) (stmt : Result) : bool :=
  req_selectOnly cfg &&
  match isAllowedStatementType (type stmt) with
  | Returned allowed => negb allowed
  | Raised _ => false
  end.

(** The errors of steps 6 and 7, about the type of the one statement. *)
Definition statement_errors (cfg : RequiredSqlGuardConfig) (stmt : Result) : list string :=
  (if type_refused cfg stmt
   then [type_text (type stmt) +:+
           " statements are not allowed. Only SELECT and SHOW statements are permitted."]
   else [])
  ++
  (if bool_decide (executionType stmt = Some "MODIFICATION")
   then ["Write operations (" +:+ type_text (type stmt) +:+ ") are not allowed"]
   else []).

(** The deny-listed names whose pattern matches the lower-cased text, in the
    order of the deny-list. *)
Definition matched_functions (sql : string) : list string :=
  filter (λ func, Js.call_pattern_test func (Js.toLowerCase sql) = true) DANGEROUS_FUNCTIONS.

Definition dangerous_errors (cfg : RequiredSqlGuardConfig) (sql : string) : list string :=
  if req_blockDangerousFunctions cfg
  then map dangerous_function_error (matched_functions sql)
  else [].

(** The verdict on a text with exactly one classified statement. *)
Definition verdict (cfg : RequiredSqlGuardConfig) (sql : string) (stmt : Result)
  : ValidationResult :=
  let errors := statement_errors cfg stmt ++ dangerous_errors cfg sql in
  {| valid := bool_decide (errors = []);
     errors := errors;
     statementType := type stmt |}.

(** The texts on which [validateSql] throws: past the two guards, classified
    as one statement whose type is [undefined], with [selectOnly] set. *)
Definition throws_on (cfg : RequiredSqlGuardConfig)
    (identify : string → Completion (list Result)) (sql : string) : Prop :=
  Js.trim sql ≠ EmptyString ∧
  Js.length sql ≤ req_maxQueryLength cfg ∧
  ∃ stmt, identify sql = Returned [stmt] ∧ type stmt = None ∧ req_selectOnly cfg = true.

Definition all_space (s : string) : Prop := Js.all_code_units Js.is_space s = true.

(** The last code unit of a string, if any. *)
Fixpoint last_code_unit (s : string) : option ascii :=
  match s with
  | EmptyString => None
  | String c EmptyString => Some c
  | String _ rest => last_code_unit rest
  end.

(** The match as the specification words it: the name, optional white space,
    an opening parenthesis, anywhere in the lower-cased text. *)
Definition spec_call_match (func sql : string) : Prop :=
  ∃ pre ws post,
    Js.toLowerCase sql = pre +:+ func +:+ ws +:+ "(" +:+ post ∧ all_space ws.

(** The match as the pattern makes it: as above, and the name does not follow
    a letter, a digit or an underscore. *)
Definition boundary_call_match (func sql : string) : Prop :=
  ∃ pre ws post,
    Js.toLowerCase sql = pre +:+ func +:+ ws +:+ "(" +:+ post ∧ all_space ws ∧
    Js.is_word_opt (last_code_unit pre) = false.

(** A classifier for the examples: it reports the statements between the
    semicolons of the text as SELECT statements, as sql-query-identifier does
    for the texts used below. *)
Definition sample_identify (sql : string) : Completion (list Result) :=
  Returned (map (λ _, {| type := Some "SELECT"; executionType := Some "LISTING" |})
                (filter (λ piece, Js.trim piece ≠ EmptyString) (Js.split sql ";"))).

(** What sql-query-identifier returns for the text [CREATE]: one statement
    whose type is [undefined]; the execution type, which the validator only
    compares with ['MODIFICATION'], is taken to be [undefined] as well. *)
Definition untyped_identify (sql : string) : Completion (list Result) :=
  Returned [ {| type := None; executionType := None |} ].

(** A classifier that always throws. *)
Definition failing_identify (sql : string) : Completion (list Result) :=
  Raised (JsError "Error" "Invalid statement").

Definition config_with (selectOnly : bool) (maxQueryLength : Z) (blockDangerousFunctions : bool)
  : option SqlGuardConfig :=
  Some {| selectOnly := Some selectOnly;
          maxQueryLength := Some maxQueryLength;
          blockDangerousFunctions := Some blockDangerousFunctions |}.

(** A text of two statements and 10017 code units, longer than the default
    limit. *)
Definition long_two_statements : string :=
  "SELECT 1; SELECT " +:+ Js.join (replicate (Z.to_nat 10000) "1") "".

(** Every code unit, for properties checked by enumeration. *)
Definition every_code_unit : list ascii := map ascii_of_nat (seq 0 256).

(** The code units of the deny-listed names: lower-case letters and the
    underscore. *)
Definition is_name_unit (c : ascii) : bool :=
  Js.in_range 97 122 c || (Js.code c =? 95)%N.

Definition is_capital (c : ascii) : bool := Js.in_range 65 90 c.

Definition no_capital (s : string) : Prop :=
  Js.all_code_units (λ c, negb (is_capital c)) s = true.

(** The code unit before the position reached after reading [pre]. *)
Definition previous (prev : option ascii) (pre : string) : option ascii :=
  match last_code_unit pre with
  | Some c => Some c
  | None => prev
  end.

(** A deny-listed name: not empty, lower-case letters and underscores only. *)
Definition is_plain_name (func : string) : Prop :=
  func ≠ EmptyString ∧ Js.all_code_units is_name_unit func = true.

(** An object whose only key is [key]. *)
Definition only_key (key : string) (value : Value) : Prop :=
  ∃ x, value = VObject [(key, x)].

(** A host for the examples: epoch rendering is a fixed text, nothing is
    serialized, and object operands do not convert. *)
Definition sample_host : Host :=
  {| toISOString := λ _, "1970-01-01T00:00:00.000Z";
     JSON_stringify := λ _, Returned "{}";
     StringToNumber := λ _, None;
     ObjectToBigInt := λ _, Raised (JsError "SyntaxError" "Cannot convert object to a BigInt");
     ObjectToNumber := λ _, Returned None |}.

(** The values of the last [Bind] among the calls, [initial] when there is none. *)
Definition last_bound (initial : list Value) (cs : list call) : list Value :=
  foldl (λ bound c, match c with Bind values => values | _ => bound end) initial cs.

(** An executor for the examples: it answers with the query and the values
    it was given. *)
Definition echo_executor (query : string) (params : list Value)
  : Completion (string * list Value) :=
  Returned (query, params).

(** How many of the first [i] names are [name]. *)
Definition earlier (names : list string) (i : nat) (name : string) : Z :=
  Z.of_nat (length (filter (λ n, n = name) (take i names))).

(** The name the caller gets for an occurrence that [count] equal names
    precede. *)
Definition suffixed (name : string) (count : Z) : string :=
  if count =? 0 then name else name +:+ "_" +:+ Js.num count.

Definition result_of (names : list string) : HttpQueryResult :=
  {| columns := names; rows := [] |}.

Definition ten_names : list Value :=
  map VString ["a"; "b"; "c"; "d"; "e"; "f"; "g"; "h"; "i"; "j"].

Definition no_underscore (s : string) : Prop :=
  Js.all_code_units (λ c, negb (bool_decide (c = "_"%char))) s = true.

(** No column name is another column name followed by a generated suffix. *)
Definition collision_free (names : list string) : Prop :=
  ∀ a b k, a ∈ names → b ∈ names → 0 < k → a ≠ b +:+ "_" +:+ Js.num k.

(** [s.split(sep).join(v)] *)
Definition replace_all (s sep v : string) : string := Js.join (Js.split s sep) v.

Definition dollar_free (s : string) : Prop :=
  Js.all_code_units (λ c, negb (bool_decide (c = "$"%char))) s = true.

(** The placeholder of the [k]-th parameter, counted from one. *)
Definition placeholder (k : nat) : string := "$" +:+ Js.num (Z.of_nat k).

(** A query text read as pieces of plain text and placeholders. *)
Inductive segment : Type :=
  | Text (s : string)
  | Hole (k : nat).

(** Plain pieces hold no dollar sign, and placeholders are [$1] to [$9]. *)
Definition well_formed (seg : segment) : Prop :=
  match seg with
  | Text s => dollar_free s
  | Hole k => (1 ≤ k ≤ 9)%nat
  end.

(** The text of the pieces, a placeholder being written as the literal [fill]
    gives for it, or as itself when [fill] gives none. *)
Fixpoint render (fill : nat → option string) (segs : list segment) : string :=
  match segs with
  | [] => EmptyString
  | Text s :: rest => s +:+ render fill rest
  | Hole k :: rest => default (placeholder k) (fill k) +:+ render fill rest
  end.

(** The literals of the parameters, by placeholder number. *)
Definition literal_of (literals : list string) (k : nat) : option string :=
  match k with
  | O => None
  | S i => literals !! i
  end.

(** What makes a text acceptable under a configuration: it is not blank, not
    longer than the limit, classified as one statement that is of an allowed
    type when [selectOnly] is set and is no modification, and, when
    [blockDangerousFunctions] is set, calls no deny-listed function. *)
Definition acceptable (cfg : RequiredSqlGuardConfig)
    (identify : string → Completion (list Result)) (sql : string) : Prop :=
  Js.trim sql ≠ EmptyString ∧
  Js.length sql ≤ req_maxQueryLength cfg ∧
  ∃ stmt,
    identify sql = Returned [stmt] ∧
    (req_selectOnly cfg = true → isAllowedStatementType (type stmt) = Returned true) ∧
    executionType stmt ≠ Some "MODIFICATION" ∧
    (req_blockDangerousFunctions cfg = true →
     ∀ func, func ∈ DANGEROUS_FUNCTIONS → ¬ boundary_call_match func sql).

(** [strict] is at least as strict as [relaxed]. *)
Definition at_least_as_strict (strict relaxed : RequiredSqlGuardConfig) : Prop :=
  req_maxQueryLength strict ≤ req_maxQueryLength relaxed ∧
  (req_selectOnly relaxed = true → req_selectOnly strict = true) ∧
  (req_blockDangerousFunctions relaxed = true → req_blockDangerousFunctions strict = true).

(** How many dots a text holds. *)
Fixpoint dots (s : string) : nat :=
  match s with
  | EmptyString => 0
  | String c rest => (if bool_decide (c = "."%char) then 1 else 0) + dots rest
  end.

(** The error of a qualified name that is not two parts around one dot. *)
Definition malformed_qualified_name : IdentifierValidationResult :=
  {| id_valid := false;
     error := Some ("Qualified table name must be in format "
                      +:+ Js.dquote +:+ "namespace.table" +:+ Js.dquote);
     sanitized := None |}.

(** A value the transform leaves alone: no object whose only key is
    [micros] or [days]. *)
Definition plain_cell (value : Value) : Prop :=
  ¬ only_key "micros" value ∧ ¬ only_key "days" value.


(** The names every decoded JSON object inherits from [Object.prototype]:
    under these [row[col]] of an object without such a field is the
    inherited member, not [undefined].  For every other column name [cell]
    is the lookup of the source. *)
Definition inherited_names : list string :=
  ["constructor"; "__proto__"; "hasOwnProperty"; "isPrototypeOf";
   "propertyIsEnumerable"; "toLocaleString"; "toString"; "valueOf";
   "__defineGetter__"; "__defineSetter__"; "__lookupGetter__"; "__lookupSetter__"].

Definition own_columns (names : list string) : Prop :=
  Forall (λ col, col ∉ inherited_names) names.

(** Reading back a single-quoted SQL literal after its opening quote: a
    doubled quote stands for one quote of the content, a single quote ends
    the literal.  The content and the text after the closing quote. *)
Fixpoint read_quoted (s : string) : option (string * string) :=
  match s with
  | EmptyString => None
  | String c rest =>
      if bool_decide (c = "'"%char) then
        match rest with
        | String d rest' =>
            if bool_decide (d = "'"%char)
            then (λ cr, (String c (fst cr), snd cr)) <$> read_quoted rest'
            else Some (EmptyString, rest)
        | EmptyString => Some (EmptyString, EmptyString)
        end
      else (λ cr, (String c (fst cr), snd cr)) <$> read_quoted rest
  end.

Definition read_literal (s : string) : option (string * string) :=
  match s with
  | String c rest => if bool_decide (c = "'"%char) then read_quoted rest else None
  | EmptyString => None
  end.

Definition unhex_digit (c : ascii) : option N :=
  if Js.in_range 48 57 c then Some (Js.code c - 48)%N
  else if Js.in_range 97 102 c then Some (Js.code c - 87)%N
  else None.

(** Reading back a run of two-digit lower-case hexadecimal bytes. *)
Fixpoint unhex (s : string) : option (list Byte.byte) :=
  match s with
  | EmptyString => Some []
  | String h (String l rest) =>
      hi ← unhex_digit h;
      lo ← unhex_digit l;
      b ← Byte.of_N (16 * hi + lo);
      bs ← unhex rest;
      Some (b :: bs)
  | String _ EmptyString => None
  end.

(** The request [fetchQuery] sends for a query text after both passes. *)
Definition request_of (this : Driver.HttpDuckDBConnection) (body : string) : Driver.RequestInit :=
  {| Driver.method := "POST"; Driver.headers := Driver.request_headers this; Driver.body := body |}.

(** The timeout error of [fetchQuery]. *)
Definition timeout_error (this : Driver.HttpDuckDBConnection) : Thrown :=
  JsError "Error" ("Query timeout after " +:+ Js.num (Driver.this_timeout this) +:+ "ms").

(** A transport that answers every request with [response]. *)
Definition answering (response : Driver.Response) : Driver.Fetch := λ _ _, Returned response.

(** A transport that is aborted before it answers. *)
Definition aborting : Driver.Fetch :=
  λ _ _, Raised (JsError "AbortError" "The operation was aborted").

(** A transport that must not be reached. *)
Definition unreachable_fetch : Driver.Fetch :=
  λ _ _, Raised (ThrownValue "unreachable").

(** [new HttpDuckDBConnection({ endpoint, token, timeout, fetch })] *)
Definition connect (endpoint : string) (token : option string) (timeout : option Z)
    (fetch : option Driver.Fetch) : Driver.HttpDuckDBConnection :=
  Driver.HttpDuckDBConnection_new
    {| Driver.endpoint := endpoint; Driver.token := token;
       Driver.timeout := timeout; Driver.fetch := fetch |}.

Definition sample_connection (customFetch : option Driver.Fetch) : Driver.HttpDuckDBConnection :=
  connect "https://api.example.dev/" (Some "secret") None customFetch.

Definition sample_envelope : Driver.QueryApiResponse :=
  {| Driver.success := true;
     Driver.data := Some [[("id", VNumber 1); ("name", VString "a")]];
     Driver.response_columns := Some ["id"; "name"];
     Driver.rowCount := Some 1;
     Driver.response_error := None |}.

Definition sample_response : Driver.Response :=
  {| Driver.ok := true; Driver.status := 200; Driver.statusText := "OK";
     Driver.text := Returned "";
     Driver.json := Returned sample_envelope |}.

(** No opening square bracket in the text. *)
Definition bracket_free (s : string) : Prop :=
  Js.all_code_units (λ c, negb (bool_decide (c = "["%char))) s = true.

Definition all_digits (s : string) : Prop := Js.all_code_units Driver.is_digit s = true.

(** [limit] or [offset] in any letter case. *)
Definition is_paging_keyword (k : string) : Prop :=
  Js.toLowerCase k = "limit" ∨ Js.toLowerCase k = "offset".

Definition is_lower_word (s : string) : Prop :=
  Js.all_code_units (Js.in_range 97 122) s = true.

(** The values [formatValue] always has a literal for, whatever the host:
    no Invalid Date and no keyed object, at any depth of an array. *)
Fixpoint has_literal (value : Value) : bool :=
  match value with
  | VDate None => false
  | VObject _ => false
  | VArray items => forallb has_literal items
  | _ => true
  end.

(** * Properties *)

(** ** The validator, step by step *)

Lemma trim_blank (s : string) :
  Js.falsy s || (Js.length (Js.trim s) =? 0) = bool_decide (Js.trim s = EmptyString).
Proof.
  destruct s as [|c s]; [reflexivity|].
  cbn [Js.falsy orb]. unfold Js.length.
  destruct (Js.trim (String c s)) as [|d t]; [reflexivity|].
  cbn [String.length]. rewrite bool_decide_eq_false_2 by discriminate.
  apply Z.eqb_neq. lia.
Qed.

Lemma foldl_push {A} (P : A → bool) (g : A → string) (l : list A) (init : list string) :
  foldl (λ errors x, if P x then errors ++ [g x] else errors) init l
  = init ++ map g (filter (λ x, P x = true) l).
Proof.
  revert init. induction l as [|x l IH]; intros init; cbn [foldl].
  - by rewrite app_nil_r.
  - rewrite IH, filter_cons. destruct (P x) eqn:HP.
    + rewrite decide_True by done. cbn [map]. by rewrite <- app_assoc.
    + rewrite decide_False by (by intros ?). done.
Qed.

Lemma length_zero_nil {A} (l : list A) :
  bool_decide (length l = 0%nat) = bool_decide (l = []).
Proof. by destruct l. Qed.

Section ValidatorFacts.
Variable identify : string → Completion (list Result).

(** The [selectOnly] check on the one statement: it throws on an undefined
    type and otherwise tells whether the type is refused. *)
Lemma selectOnly_check (cfg : RequiredSqlGuardConfig) (stmt : Result) :
  (if req_selectOnly cfg
   then allowed ← isAllowedStatementType (type stmt); mret (negb allowed)
   else mret false)
  = if untyped cfg stmt then Raised startsWith_of_undefined
    else Returned (type_refused cfg stmt).
Proof.
  unfold untyped, type_refused, isAllowedStatementType.
  destruct (req_selectOnly cfg); [|reflexivity].
  destruct (type stmt) as [t|]; [|reflexivity]. cbn [andb].
  rewrite (bool_decide_eq_false_2 (Some t = None)) by done.
  destruct (bool_decide (Some t = Some "SELECT")); [reflexivity|].
  by destruct (Js.startsWith t "SHOW_").
Qed.

(** [validateSql] as a decision list: the two guards, the classifier's
    outcome, the number of statements, the type of the one statement. *)
Lemma validateSql_steps (sql : string) (config : option SqlGuardConfig) :
  validateSql identify sql config =
    if bool_decide (Js.trim sql = EmptyString) then
      Returned (rejected "SQL query is empty")
    else if Js.length sql >? req_maxQueryLength (spread config) then
      Returned (rejected ("Query exceeds maximum length of "
                            +:+ Js.num (req_maxQueryLength (spread config)) +:+ " bytes"))
    else
      match identify sql with
      | Raised err => Returned (rejected ("Failed to parse SQL: " +:+ error_text err))
      | Returned [] => Returned (rejected "Unable to identify SQL statement type")
      | Returned [stmt] =>
          if untyped (spread config) stmt then Raised startsWith_of_undefined
          else Returned (verdict (spread config) sql stmt)
      | Returned (_ :: _ :: _) => Returned (rejected "Multiple statements are not allowed")
      end.
Proof.
  unfold validateSql. rewrite trim_blank.
  destruct (bool_decide _); [reflexivity|].
  destruct (_ >? _); [reflexivity|].
  destruct (identify sql) as [[|stmt [|stmt' more]]|err]; try reflexivity.
  cbn [length Nat.ltb Nat.leb Nat.eqb lookup list_lookup].
  rewrite selectOnly_check.
  destruct (untyped (spread config) stmt); [reflexivity|].
  cbn [mbind completion_bind].
  unfold verdict, statement_errors, dangerous_errors, matched_functions, mret, completion_ret.
  rewrite length_zero_nil.
  destruct (req_blockDangerousFunctions (spread config)).
  - rewrite foldl_push.
    destruct (type_refused _ _), (bool_decide (executionType stmt = _)); reflexivity.
  - rewrite app_nil_r.
    destruct (type_refused _ _), (bool_decide (executionType stmt = _)); reflexivity.
Qed.

(** Past the two guards the verdict depends on the classifier alone. *)
Lemma validateSql_past_guards (sql : string) (config : option SqlGuardConfig) :
  Js.trim sql ≠ EmptyString →
  Js.length sql ≤ req_maxQueryLength (spread config) →
  validateSql identify sql config =
    match identify sql with
    | Raised err => Returned (rejected ("Failed to parse SQL: " +:+ error_text err))
    | Returned [] => Returned (rejected "Unable to identify SQL statement type")
    | Returned [stmt] =>
        if untyped (spread config) stmt then Raised startsWith_of_undefined
        else Returned (verdict (spread config) sql stmt)
    | Returned (_ :: _ :: _) => Returned (rejected "Multiple statements are not allowed")
    end.
Proof.
  intros Hblank Hlen. rewrite validateSql_steps.
  rewrite bool_decide_eq_false_2 by done.
  destruct (_ >? _) eqn:Hgt; [apply Z.gtb_lt in Hgt; lia|]. done.
Qed.

Lemma untyped_true (cfg : RequiredSqlGuardConfig) (stmt : Result) :
  untyped cfg stmt = true ↔ type stmt = None ∧ req_selectOnly cfg = true.
Proof.
  unfold untyped. rewrite andb_true_iff, bool_decide_eq_true. tauto.
Qed.

(** [validateSql] throws exactly on the texts of [throws_on], and then the
    error of [type.startsWith]. *)
Lemma validateSql_raises_iff (sql : string) (config : option SqlGuardConfig)
    (error : Thrown) :
  validateSql identify sql config = Raised error ↔
  error = startsWith_of_undefined ∧ throws_on (spread config) identify sql.
Proof.
  rewrite validateSql_steps. unfold throws_on. split.
  - case_bool_decide as Hblank; [done|].
    destruct (_ >? _) eqn:Hgt; [done|].
    rewrite Z.gtb_ltb in Hgt. apply Z.ltb_ge in Hgt.
    destruct (identify sql) as [[|stmt [|stmt' more]]|err]; try done.
    destruct (untyped (spread config) stmt) eqn:Huntyped; [|done].
    intros [= <-]. apply untyped_true in Huntyped as [Htype Hselect].
    split; [done|]. split; [done|]. split; [done|]. by exists stmt.
  - intros (-> & Hblank & Hlen & stmt & Hid & Htype & Hselect).
    rewrite bool_decide_eq_false_2 by done.
    destruct (_ >? _) eqn:Hgt; [apply Z.gtb_lt in Hgt; lia|].
    rewrite Hid. by rewrite (proj2 (untyped_true _ _) (conj Htype Hselect)).
Qed.

(** Every call returns a verdict or is one of the calls that throw. *)
Lemma validateSql_returns (sql : string) (config : option SqlGuardConfig) :
  (∃ result, validateSql identify sql config = Returned result) ∨
  throws_on (spread config) identify sql.
Proof.
  destruct (validateSql identify sql config) as [result|error] eqn:Hcall.
  - left. by exists result.
  - right. by apply validateSql_raises_iff in Hcall as [_ ?].
Qed.

End ValidatorFacts.

(** ** Verdicts of the validator *)

(** C3: [validateSql] is not total.  The [try] around the classifier does
    not extend to the [selectOnly] check, and [type.startsWith] throws a
    TypeError when the one classified statement has no type, as for the text
    [CREATE]: [validateSql] and [isReadOnlyQuery] throw instead of returning.
    This is the only way either throws: [validateSql] throws exactly on a
    text past the two guards that is classified as one statement of
    undefined type while [selectOnly] is set.  A failure of the classifier
    itself is caught and returned as the rejection "Failed to parse SQL: ...". *)
Theorem validateSql_raises
    (identify : string → Completion (list Result)) (sql : string)
    (config : option SqlGuardConfig) :
  validateSql untyped_identify "CREATE" None = Raised startsWith_of_undefined ∧
  isReadOnlyQuery untyped_identify "CREATE" = Raised startsWith_of_undefined ∧
  (∀ error, validateSql identify sql config = Raised error ↔
            error = startsWith_of_undefined ∧ throws_on (spread config) identify sql) ∧
  (∀ error, isReadOnlyQuery identify sql = Raised error ↔
            error = startsWith_of_undefined ∧ throws_on DEFAULT_CONFIG identify sql) ∧
  (∀ err, identify sql = Raised err →
     Js.trim sql ≠ EmptyString →
     Js.length sql ≤ req_maxQueryLength (spread config) →
     validateSql identify sql config
     = Returned (rejected ("Failed to parse SQL: " +:+ error_text err))).
Proof.
  split; [by vm_compute|]. split; [by vm_compute|].
  split; [intros error; apply validateSql_raises_iff|]. split.
  - intros error. unfold isReadOnlyQuery.
    rewrite <- (validateSql_raises_iff identify sql
                  (Some {| selectOnly := Some true; maxQueryLength := None;
                           blockDangerousFunctions := None |}) error).
    destruct (validateSql identify sql _) as [result|e]; [done|].
    cbn. split; by intros [= ->].
  - intros err Herr Hblank Hlen.
    by rewrite validateSql_past_guards, Herr.
Qed.

(** The configuration [isReadOnlyQuery] passes on: [{ selectOnly: true }]. *)
Lemma isReadOnlyQuery_unfold
    (identify : string → Completion (list Result)) (sql : string) :
  isReadOnlyQuery identify sql
  = result ← validateSql identify sql
               (Some {| selectOnly := Some true; maxQueryLength := None;
                        blockDangerousFunctions := None |});
    mret (valid result).
Proof. reflexivity. Qed.

(** C4: every [ValidationResult] that [validateSql] produces has
    [valid = (errors is empty)], for every text and configuration: it is never
    valid with errors and never invalid without; the answer of
    [isReadOnlyQuery] is the [valid] field of the result of such a call.  A
    result is produced by every call but those that throw on a statement of
    undefined type. *)
Theorem validation_result_invariant
    (identify : string → Completion (list Result)) (sql : string)
    (config : option SqlGuardConfig) :
  ((∃ result, validateSql identify sql config = Returned result ∧
              valid result = bool_decide (errors result = []) ∧
              (valid result = true → errors result = []) ∧
              (valid result = false → errors result ≠ [])) ∨
   throws_on (spread config) identify sql) ∧
  ((∃ result, validateSql identify sql
                (Some {| selectOnly := Some true; maxQueryLength := None;
                         blockDangerousFunctions := None |}) = Returned result ∧
              isReadOnlyQuery identify sql = Returned (valid result) ∧
              valid result = bool_decide (errors result = [])) ∨
   throws_on DEFAULT_CONFIG identify sql) ∧
  (∀ result, validateSql identify sql config = Returned result →
             valid result = bool_decide (errors result = [])) ∧
  (∀ answer, isReadOnlyQuery identify sql = Returned answer →
     ∃ result, validateSql identify sql
                 (Some {| selectOnly := Some true; maxQueryLength := None;
                          blockDangerousFunctions := None |}) = Returned result ∧
               answer = valid result).
Proof.
  assert (∀ config result, validateSql identify sql config = Returned result →
                           valid result = bool_decide (errors result = [])) as Hinv.
  { intros cfg result. rewrite validateSql_steps.
    destruct (bool_decide _); [by intros [= <-]|].
    destruct (_ >? _); [by intros [= <-]|].
    destruct (identify sql) as [[|stmt [|stmt' more]]|err]; try (by intros [= <-]).
    destruct (untyped _ _); [done|]. by intros [= <-]. }
  split; [|split; [|split]].
  - destruct (validateSql_returns identify sql config) as [[result Hresult]|Hthrows];
      [left|by right].
    exists result. split; [done|]. pose proof (Hinv _ _ Hresult) as Hvalid.
    split; [done|]. rewrite Hvalid. split.
    + by intros ?%bool_decide_eq_true_1.
    + by intros ?%bool_decide_eq_false_1.
  - destruct (validateSql_returns identify sql
                (Some {| selectOnly := Some true; maxQueryLength := None;
                         blockDangerousFunctions := None |}))
      as [[result Hresult]|Hthrows]; [left|by right].
    exists result. split; [done|]. split; [|by apply (Hinv _ _ Hresult)].
    by rewrite isReadOnlyQuery_unfold, Hresult.
  - apply Hinv.
  - intros answer. rewrite isReadOnlyQuery_unfold.
    destruct (validateSql identify sql _) as [result|e]; [|done].
    cbn. intros [= <-]. by exists result.
Qed.

(** C1, as stated, fails: a text of two statements that is longer than
    [maxQueryLength] is rejected by the length guard, with the length error. *)
Lemma multiple_statements_counterexample :
  (∃ first second, sample_identify long_two_statements = Returned [first; second]) ∧
  validateSql sample_identify long_two_statements None
  = Returned (rejected "Query exceeds maximum length of 10000 bytes") ∧
  validateSql sample_identify long_two_statements None
  ≠ Returned (rejected "Multiple statements are not allowed").
Proof.
  split; [|split].
  - vm_compute. eauto.
  - vm_compute. reflexivity.
  - vm_compute. discriminate.
Qed.

(** C1 (amended): a text that the classifier splits into two or more
    statements is always rejected with exactly one error; when the text is
    not blank and not longer than [maxQueryLength], that verdict is the single
    error "Multiple statements are not allowed" with no statement type,
    whatever [selectOnly] and [blockDangerousFunctions] are. *)
Theorem multiple_statements_rejected
    (identify : string → Completion (list Result)) (sql : string)
    (config : option SqlGuardConfig) (statements : list Result) :
  identify sql = Returned statements →
  (2 ≤ length statements)%nat →
  (∃ message, validateSql identify sql config = Returned (rejected message)) ∧
  (Js.trim sql ≠ EmptyString →
   Js.length sql ≤ req_maxQueryLength (spread config) →
   validateSql identify sql config
   = Returned (rejected "Multiple statements are not allowed")).
Proof.
  intros Hid Hmany.
  destruct statements as [|first [|second more]]; cbn [length] in Hmany; try lia.
  split.
  - rewrite validateSql_steps, Hid.
    destruct (bool_decide _); [by eexists|].
    destruct (_ >? _); by eexists.
  - intros Hblank Hlen. by rewrite validateSql_past_guards, Hid.
Qed.

Lemma multiple_statements_rejected_witness :
  validateSql sample_identify "SELECT 1; SELECT 2" (config_with false 10000 false)
  = Returned (rejected "Multiple statements are not allowed").
Proof.
  refine (proj2 (multiple_statements_rejected sample_identify "SELECT 1; SELECT 2"
                   (config_with false 10000 false) _ eq_refl _) _ _).
  - vm_compute. lia.
  - vm_compute. discriminate.
  - vm_compute. discriminate.
Defined.

(** ** Strings and the call pattern *)

Lemma append_cons (c : ascii) (s t : string) : String c s +:+ t = String c (s +:+ t).
Proof. reflexivity. Qed.

Lemma append_empty_l (t : string) : EmptyString +:+ t = t.
Proof. reflexivity. Qed.

Lemma append_assoc (s t u : string) : (s +:+ t) +:+ u = s +:+ t +:+ u.
Proof. induction s as [|c s IH]; [done|]. by rewrite !append_cons, IH. Qed.

Lemma append_length (s t : string) :
  String.length (s +:+ t) = (String.length s + String.length t)%nat.
Proof. induction s as [|c s IH]; [done|]. rewrite append_cons. cbn. by rewrite IH. Qed.

Lemma append_inj_r (s1 s2 t : string) : s1 +:+ t = s2 +:+ t → s1 = s2.
Proof.
  revert s2. induction s1 as [|c s1 IH]; intros [|d s2] Heq.
  - done.
  - apply (f_equal String.length) in Heq.
    rewrite append_cons, append_empty_l in Heq. cbn in Heq. rewrite append_length in Heq. lia.
  - apply (f_equal String.length) in Heq.
    rewrite append_cons, append_empty_l in Heq. cbn in Heq. rewrite append_length in Heq. lia.
  - rewrite !append_cons in Heq. injection Heq as -> Heq. f_equal. by apply IH.
Qed.

Lemma last_code_unit_append (s t : string) :
  t ≠ EmptyString → last_code_unit (s +:+ t) = last_code_unit t.
Proof.
  intros Ht. induction s as [|c s IH]; [done|].
  rewrite append_cons. cbn [last_code_unit].
  destruct (s +:+ t) eqn:Hst; [|done].
  destruct s; [by rewrite append_empty_l in Hst|by rewrite append_cons in Hst].
Qed.

Lemma last_code_unit_None (s : string) : last_code_unit s = None → s = EmptyString.
Proof.
  induction s as [|c s IH]; [done|]. cbn [last_code_unit].
  destruct s; [done|]. intros Hs. by specialize (IH Hs).
Qed.

Lemma every_code_unit_complete (c : ascii) : In c every_code_unit.
Proof.
  unfold every_code_unit. rewrite <- (ascii_nat_embedding c).
  apply in_map, in_seq. pose proof (nat_ascii_bounded c). lia.
Qed.

Lemma for_every_code_unit (P : ascii → bool) :
  forallb P every_code_unit = true → ∀ c, P c = true.
Proof.
  intros Hall c. rewrite forallb_forall in Hall. apply Hall, every_code_unit_complete.
Qed.

Lemma char_matches_i_exact (p c : ascii) :
  is_name_unit p = true → is_capital c = false → Js.char_matches_i p c = true → p = c.
Proof.
  intros Hp Hc Hm.
  assert (forallb (λ p, forallb (λ c,
            implb (is_name_unit p && negb (is_capital c) && Js.char_matches_i p c)
                  (bool_decide (p = c))) every_code_unit) every_code_unit = true) as Hall.
  { vm_compute. reflexivity. }
  pose proof (for_every_code_unit _ (for_every_code_unit _ Hall p) c) as Hpc.
  cbv beta in Hpc. rewrite Hp, Hc, Hm in Hpc. cbn in Hpc.
  by apply bool_decide_eq_true_1 in Hpc.
Qed.

Lemma lower_not_capital (c : ascii) : is_capital (Js.lower c) = false.
Proof.
  assert (forallb (λ c, negb (is_capital (Js.lower c))) every_code_unit = true) as Hall.
  { vm_compute. reflexivity. }
  apply negb_true_iff, (for_every_code_unit _ Hall).
Qed.

Lemma name_unit_is_word (c : ascii) : is_name_unit c = true → Js.is_word c = true.
Proof.
  unfold is_name_unit, Js.is_word. intros [->| ->]%orb_true_iff; [done|].
  by rewrite !orb_true_r.
Qed.

Lemma toLowerCase_no_capital (s : string) : no_capital (Js.toLowerCase s).
Proof.
  unfold no_capital. induction s as [|c s IH]; [done|].
  cbn [Js.toLowerCase Js.all_code_units]. by rewrite lower_not_capital, IH.
Qed.

Lemma no_capital_append_r (s t : string) : no_capital (s +:+ t) → no_capital t.
Proof.
  unfold no_capital. induction s as [|c s IH]; [done|].
  rewrite append_cons. cbn [Js.all_code_units]. intros [_ ?]%andb_true_iff. auto.
Qed.

Lemma match_literal_i_exact (func s rest : string) :
  Js.all_code_units is_name_unit func = true → no_capital s →
  Js.match_literal_i func s = Some rest → s = func +:+ rest.
Proof.
  unfold no_capital. revert s. induction func as [|p func IH]; intros s Hfunc Hs Hm.
  - cbn in Hm. by injection Hm as ->.
  - cbn [Js.all_code_units] in Hfunc. apply andb_true_iff in Hfunc as [Hp Hfunc].
    destruct s as [|c s]; [done|]. cbn [Js.match_literal_i] in Hm.
    cbn [Js.all_code_units] in Hs. apply andb_true_iff in Hs as [Hc Hs].
    destruct (Js.char_matches_i p c) eqn:Hpc; [|done].
    apply negb_true_iff in Hc.
    rewrite (char_matches_i_exact p c Hp Hc Hpc), append_cons. f_equal. by apply IH.
Qed.

Lemma match_literal_i_self (func rest : string) :
  Js.match_literal_i func (func +:+ rest) = Some rest.
Proof.
  induction func as [|p func IH]; [done|].
  rewrite append_cons. cbn [Js.match_literal_i]. unfold Js.char_matches_i.
  by rewrite N.eqb_refl.
Qed.

Lemma skip_spaces_paren (s post : string) :
  Js.skip_spaces s = String "(" post ↔
  ∃ ws, s = ws +:+ String "(" post ∧ all_space ws.
Proof.
  unfold all_space. split.
  - induction s as [|c s IH]; [done|]. cbn [Js.skip_spaces].
    destruct (Js.is_space c) eqn:Hc.
    + intros (ws & -> & Hws)%IH. exists (String c ws). rewrite append_cons.
      cbn [Js.all_code_units]. by rewrite Hc, Hws.
    + intros ->. by exists EmptyString.
  - intros (ws & -> & Hws). induction ws as [|c ws IH]; [done|].
    cbn [Js.all_code_units] in Hws. apply andb_true_iff in Hws as [Hc Hws].
    rewrite append_cons. cbn [Js.skip_spaces]. rewrite Hc. auto.
Qed.

Lemma call_pattern_from_somewhere (func : string) (prev : option ascii) (s : string) :
  Js.call_pattern_from func prev s = true ↔
  ∃ pre rest, s = pre +:+ rest ∧ Js.call_pattern_here func (previous prev pre) rest = true.
Proof.
  revert prev. induction s as [|c s IH]; intros prev.
  - cbn [Js.call_pattern_from]. rewrite orb_false_r. split.
    + intros Hhere. by exists EmptyString, EmptyString.
    + intros (pre & rest & Heq & Hhere).
      destruct pre; [|by rewrite append_cons in Heq].
      rewrite append_empty_l in Heq. by subst rest.
  - cbn [Js.call_pattern_from]. rewrite orb_true_iff, IH. split.
    + intros [Hhere|(pre & rest & -> & Hhere)].
      * by exists EmptyString, (String c s).
      * exists (String c pre), rest. split; [done|].
        unfold previous in *. cbn [last_code_unit].
        destruct pre as [|d pre]; [done|].
        by destruct (last_code_unit (String d pre)) eqn:Hlast; [|apply last_code_unit_None in Hlast].
    + intros (pre & rest & Heq & Hhere). destruct pre as [|d pre].
      * left. rewrite append_empty_l in Heq. by subst rest.
      * right. rewrite append_cons in Heq. injection Heq as -> ->.
        exists pre, rest. split; [done|].
        unfold previous in *. cbn [last_code_unit] in Hhere.
        destruct pre as [|e pre]; [done|].
        by destruct (last_code_unit (String e pre)) eqn:Hlast; [|apply last_code_unit_None in Hlast].
Qed.

Lemma deny_list_plain_names : Forall is_plain_name DANGEROUS_FUNCTIONS.
Proof. repeat constructor; done. Qed.

Lemma call_pattern_here_exact (func : string) (prev : option ascii) (rest : string) :
  is_plain_name func → no_capital rest →
  Js.call_pattern_here func prev rest = true ↔
  Js.is_word_opt prev = false ∧
  ∃ ws post, rest = func +:+ ws +:+ "(" +:+ post ∧ all_space ws.
Proof.
  intros [Hne Hunits] Hrest. unfold Js.call_pattern_here.
  assert (∀ tail, Js.is_word_opt (Js.first (func +:+ tail)) = true) as Hfirst.
  { intros tail. destruct func as [|p func]; [done|].
    cbn [Js.all_code_units] in Hunits. apply andb_true_iff in Hunits as [Hp _].
    rewrite append_cons. cbn. by apply name_unit_is_word. }
  rewrite andb_true_iff. split.
  - intros [Hb Hm].
    destruct (Js.match_literal_i func rest) as [after|] eqn:Hlit; [|done].
    apply match_literal_i_exact in Hlit as ->; [|done..].
    unfold Js.word_boundary in Hb. rewrite Hfirst in Hb.
    split; [by destruct (Js.is_word_opt prev)|].
    destruct (Js.skip_spaces after) as [|c post] eqn:Hskip; [done|].
    apply bool_decide_eq_true_1 in Hm as ->.
    apply skip_spaces_paren in Hskip as (ws & -> & Hws). by exists ws, post.
  - intros (Hprev & ws & post & -> & Hws). split.
    + unfold Js.word_boundary. by rewrite Hprev, Hfirst.
    + rewrite match_literal_i_self.
      assert (Js.skip_spaces (ws +:+ "(" +:+ post) = String "(" post) as ->; [|done].
      apply skip_spaces_paren. by exists ws.
Qed.

(** The pattern of the deny-list scan, read declaratively: on the lower-cased
    text it matches exactly when the text holds the name, optional white
    space and an opening parenthesis, the name not following a letter, a digit
    or an underscore. *)
Lemma call_pattern_test_boundary (func sql : string) :
  is_plain_name func →
  Js.call_pattern_test func (Js.toLowerCase sql) = true ↔ boundary_call_match func sql.
Proof.
  intros Hname. unfold Js.call_pattern_test, boundary_call_match.
  rewrite call_pattern_from_somewhere. split.
  - intros (pre & rest & Heq & Hhere).
    apply call_pattern_here_exact in Hhere as (Hprev & ws & post & -> & Hws); [|done|].
    + exists pre, ws, post. split; [done|]. split; [done|].
      unfold previous in Hprev. by destruct (last_code_unit pre).
    + apply (no_capital_append_r pre). rewrite <- Heq. apply toLowerCase_no_capital.
  - intros (pre & ws & post & Heq & Hws & Hprev).
    exists pre, (func +:+ ws +:+ "(" +:+ post). split; [done|].
    apply call_pattern_here_exact; [done| |].
    + apply (no_capital_append_r pre). rewrite <- Heq. apply toLowerCase_no_capital.
    + split; [|by exists ws, post].
      unfold previous. by destruct (last_code_unit pre).
Qed.

Lemma dangerous_function_error_inj (f g : string) :
  dangerous_function_error f = dangerous_function_error g → f = g.
Proof.
  unfold dangerous_function_error. intros Heq.
  apply String.app_inj in Heq. by apply append_inj_r in Heq.
Qed.

Lemma deny_list_NoDup : NoDup DANGEROUS_FUNCTIONS.
Proof. apply (bool_decide_unpack _). vm_compute. exact I. Qed.

Lemma dangerous_errors_NoDup (cfg : RequiredSqlGuardConfig) (sql : string) :
  NoDup (dangerous_errors cfg sql).
Proof.
  unfold dangerous_errors, matched_functions.
  destruct (req_blockDangerousFunctions cfg); [|constructor].
  apply NoDup_fmap_2_strong.
  - intros f g _ _. apply dangerous_function_error_inj.
  - exact (NoDup_filter _ _ deny_list_NoDup).
Qed.

Lemma last_code_unit_append3 (s t u : string) :
  u ≠ EmptyString → last_code_unit (s +:+ t +:+ u) = last_code_unit u.
Proof.
  intros Hu. rewrite last_code_unit_append; [by apply last_code_unit_append|].
  intros Hempty. apply (f_equal String.length) in Hempty.
  rewrite append_length in Hempty. destruct u; [done|]. cbn in Hempty. lia.
Qed.

Lemma statement_error_not_dangerous (cfg : RequiredSqlGuardConfig) (stmt : Result)
    (func : string) :
  dangerous_function_error func ∉ statement_errors cfg stmt.
Proof.
  assert (last_code_unit (dangerous_function_error func) = Some "s"%char) as Hlast.
  { unfold dangerous_function_error. by rewrite last_code_unit_append3. }
  unfold statement_errors. intros [Hin|Hin]%elem_of_app.
  - destruct (type_refused _ _); [|by apply elem_of_nil in Hin].
    apply list_elem_of_singleton in Hin. rewrite Hin in Hlast.
    by rewrite last_code_unit_append in Hlast.
  - destruct (bool_decide _); [|by apply elem_of_nil in Hin].
    apply list_elem_of_singleton in Hin. rewrite Hin in Hlast.
    by rewrite last_code_unit_append3 in Hlast.
Qed.

(** C2, as stated, fails: the text below holds [read_csv(], yet with
    [blockDangerousFunctions] at its default [true] no error is reported,
    because the name follows an underscore and the pattern asks for a word
    boundary before it. *)
Lemma dangerous_function_counterexample :
  "read_csv" ∈ DANGEROUS_FUNCTIONS ∧
  spec_call_match "read_csv" "SELECT my_read_csv('f')" ∧
  validateSql sample_identify "SELECT my_read_csv('f')" None
  = Returned {| valid := true; errors := []; statementType := Some "SELECT" |}.
Proof.
  split; [|split].
  - unfold DANGEROUS_FUNCTIONS. apply list_elem_of_here.
  - exists "select my_", EmptyString, "'f')". split; [vm_compute; reflexivity|done].
  - vm_compute. reflexivity.
Qed.

(** C2 (amended): for a text that is not blank, is not longer than
    [maxQueryLength] and is classified as exactly one statement, the errors of
    [validateSql] are the statement-type errors followed, when
    [blockDangerousFunctions] is true, by one error per deny-listed name that
    matches, in deny-list order and without repetition.  A name matches when
    the lower-cased text holds the name, optional white space and an opening
    parenthesis, and the name does not directly follow a letter, a digit or an
    underscore.  When [blockDangerousFunctions] is false no such error is
    reported.  The one statement that gets no verdict at all is the statement
    of undefined type under [selectOnly], on which the call throws. *)
Theorem dangerous_functions_reported
    (identify : string → Completion (list Result)) (sql : string)
    (config : option SqlGuardConfig) (stmt : Result) :
  Js.trim sql ≠ EmptyString →
  Js.length sql ≤ req_maxQueryLength (spread config) →
  identify sql = Returned [stmt] →
  if untyped (spread config) stmt
  then validateSql identify sql config = Raised startsWith_of_undefined
  else
    ∃ result,
      validateSql identify sql config = Returned result ∧
      errors result
      = statement_errors (spread config) stmt ++ dangerous_errors (spread config) sql ∧
      NoDup (dangerous_errors (spread config) sql) ∧
      ∀ func, func ∈ DANGEROUS_FUNCTIONS →
        (dangerous_function_error func ∈ errors result ↔
         req_blockDangerousFunctions (spread config) = true ∧ boundary_call_match func sql).
Proof.
  intros Hblank Hlen Hid.
  pose proof (validateSql_past_guards identify sql config Hblank Hlen) as Hcall.
  rewrite Hid in Hcall.
  destruct (untyped (spread config) stmt); [done|].
  exists (verdict (spread config) sql stmt).
  split; [|split; [reflexivity|split; [apply dangerous_errors_NoDup|]]].
  - done.
  - intros func Hfunc. cbn [errors verdict].
    assert (is_plain_name func) as Hname.
    { pose proof deny_list_plain_names as Hall.
      rewrite Forall_forall in Hall. by apply Hall. }
    rewrite elem_of_app. unfold dangerous_errors, matched_functions.
    destruct (req_blockDangerousFunctions (spread config)); split.
    + intros [Hin|Hin]; [by apply statement_error_not_dangerous in Hin|].
      apply list_elem_of_fmap in Hin as (g & Heq & Hg).
      apply dangerous_function_error_inj in Heq as <-.
      apply list_elem_of_filter in Hg as [Hmatch _].
      split; [done|]. by apply call_pattern_test_boundary.
    + intros [_ Hmatch]. right. apply list_elem_of_fmap. exists func. split; [done|].
      apply list_elem_of_filter. split; [|done]. by apply call_pattern_test_boundary.
    + intros [Hin|Hin]; [by apply statement_error_not_dangerous in Hin|].
      by apply elem_of_nil in Hin.
    + by intros [? _].
Qed.

Lemma dangerous_functions_reported_witness :
  ∃ result,
    validateSql sample_identify "SELECT read_csv('f'), Load (1)" None = Returned result ∧
    errors result
    = statement_errors DEFAULT_CONFIG
        {| type := Some "SELECT"; executionType := Some "LISTING" |}
        ++ dangerous_errors DEFAULT_CONFIG "SELECT read_csv('f'), Load (1)" ∧
    NoDup (dangerous_errors DEFAULT_CONFIG "SELECT read_csv('f'), Load (1)") ∧
    ∀ func, func ∈ DANGEROUS_FUNCTIONS →
      (dangerous_function_error func ∈ errors result ↔
       req_blockDangerousFunctions DEFAULT_CONFIG = true ∧
       boundary_call_match func "SELECT read_csv('f'), Load (1)").
Proof.
  refine (dangerous_functions_reported sample_identify "SELECT read_csv('f'), Load (1)"
            None {| type := Some "SELECT"; executionType := Some "LISTING" |} _ _ _).
  - vm_compute. discriminate.
  - vm_compute. discriminate.
  - vm_compute. reflexivity.
Defined.

(** ** The identifier validator *)

Lemma trimStart_decompose (s : string) :
  ∃ pre, s = pre +:+ Js.trimStart s ∧ all_space pre.
Proof.
  unfold all_space. induction s as [|c s (pre & IH & Hpre)].
  - by exists EmptyString.
  - cbn [Js.trimStart]. destruct (Js.is_space c) eqn:Hc.
    + exists (String c pre). rewrite append_cons, <- IH. split; [done|].
      cbn [Js.all_code_units]. by rewrite Hc, Hpre.
    + by exists EmptyString.
Qed.

Lemma trimEnd_decompose (s : string) :
  ∃ post, s = Js.trimEnd s +:+ post ∧ all_space post.
Proof.
  unfold all_space. induction s as [|c s (post & IH & Hpost)].
  - by exists EmptyString.
  - cbn [Js.trimEnd]. destruct (Js.trimEnd s) as [|d kept] eqn:Hkept.
    + rewrite append_empty_l in IH. subst post.
      destruct (Js.is_space c) eqn:Hc.
      * exists (String c s). split; [done|]. cbn [Js.all_code_units]. by rewrite Hc, Hpost.
      * by exists s.
    + exists post. split; [|done]. rewrite append_cons. by f_equal.
Qed.

(** [trim] only drops white space, at the two ends. *)
Lemma trim_decompose (s : string) :
  ∃ pre post, s = pre +:+ Js.trim s +:+ post ∧ all_space pre ∧ all_space post.
Proof.
  destruct (trimStart_decompose s) as (pre & Hs & Hpre).
  destruct (trimEnd_decompose (Js.trimStart s)) as (post & Ht & Hpost).
  exists pre, post. unfold Js.trim. by rewrite <- Ht, <- Hs.
Qed.

(** C5, as stated, fails: an identifier with white space around it is
    accepted, and the sanitized field is the trimmed text, not the input. *)
Lemma sanitized_counterexample :
  validateIdentifier " events " None
  = {| id_valid := true; error := None; sanitized := Some "events" |} ∧
  sanitized (validateIdentifier " events " None) ≠ Some " events ".
Proof. split; [vm_compute; reflexivity|vm_compute; discriminate]. Qed.

(** C5 (amended): when [validateIdentifier] succeeds, the sanitized field is
    the input with the white space at its two ends removed and nothing else
    changed (no quoting); it is the input itself whenever the input has no
    white space at its ends.  The sanitized field is present only when valid
    is true. *)
Theorem sanitized_is_trimmed_input (identifier : string) (config : option IdentifierConfig) :
  (id_valid (validateIdentifier identifier config) = true →
   sanitized (validateIdentifier identifier config) = Some (Js.trim identifier) ∧
   (Js.trim identifier = identifier →
    sanitized (validateIdentifier identifier config) = Some identifier) ∧
   ∃ pre post,
     identifier = pre +:+ Js.trim identifier +:+ post ∧ all_space pre ∧ all_space post) ∧
  (id_valid (validateIdentifier identifier config) = false →
   sanitized (validateIdentifier identifier config) = None).
Proof.
  unfold validateIdentifier.
  destruct (_ || _); [by split|].
  destruct (_ >? _); [by split|].
  destruct (negb _); [by split|].
  destruct (bool_decide _); [by split|].
  cbn [id_valid sanitized]. split; [|done]. intros _.
  split; [done|]. split; [by intros ->|]. apply trim_decompose.
Qed.

Lemma sanitized_is_trimmed_input_witness :
  sanitized (validateIdentifier " events " None) = Some (Js.trim " events ").
Proof.
  refine (proj1 (proj1 (sanitized_is_trimmed_input " events " None) _)).
  vm_compute. reflexivity.
Defined.

(** ** The result translator *)


Lemma transformValue_micros `{Host} (x : Value) :
  transformValue (VObject [("micros", x)])
  = micros ← BigInt x; mret (new_Date (Some (micros ÷ 1000))).
Proof. reflexivity. Qed.


Lemma transformValue_other `{Host} (value : Value) :
  ¬ only_key "micros" value → ¬ only_key "days" value →
  transformValue value = Returned value.
Proof.
  intros Hmicros Hdays. unfold transformValue.
  destruct value as [|b|n|n|s|time|bytes|items|fields]; try reflexivity.
  - by destruct (truthy _ && _ && _).
  - by destruct (truthy _ && _ && _).
  - by destruct (truthy _ && _ && _).
  - by destruct (truthy _ && _ && _).
  - cbn [truthy typeof isArray negb andb bool_decide decide_rel].
    rewrite bool_decide_eq_true_2 by done. cbn [andb].
    assert (∀ key, has key (VObject fields) && (length (keys (VObject fields)) =? 1)%nat = true →
                   only_key key (VObject fields)) as Hsingle.
    { intros key [Hhas Hlen]%andb_true_iff.
      destruct fields as [|[k x] [|more]]; cbn in Hhas, Hlen.
      all: try done.
      apply bool_decide_eq_true_1 in Hhas.
      destruct (bool_decide (k = key)) eqn:Hk; [|by destruct Hhas].
      apply bool_decide_eq_true_1 in Hk as ->. by exists x. }
    destruct (has "micros" _ && _) eqn:H1; [by apply Hsingle in H1|].
    destruct (has "days" _ && _) eqn:H2; [by apply Hsingle in H2|].
    done.
Qed.



Lemma mapM_raises {A B} (f : A → Completion B) (xs : list A) (x : A) (e : Thrown) :
  x ∈ xs → f x = Raised e → ∃ e', mapM f xs = Raised e'.
Proof.
  intros Hin Hx. induction xs as [|y xs IH]; [by apply elem_of_nil in Hin|].
  cbn [mapM]. apply elem_of_cons in Hin as [<-|Hin].
  - rewrite Hx. by eexists.
  - destruct (f y) as [b|e1]; [|by eexists].
    destruct (IH Hin) as [e' ->]. by eexists.
Qed.

(** C10: result translation is not total.  A cell that is an object whose
    only key is [micros], holding a string that is not an integer literal,
    makes the construction of the query result raise: the cell
    {micros: "abc"} raises a SyntaxError instead of yielding a result or
    passing the value through, and so does every response that holds such a
    cell under one of its columns. *)
Theorem invalid_micros_raises `{Host} :
  transformValue (VObject [("micros", VString "abc")])
  = Raised (JsError "SyntaxError" "Cannot convert abc to a BigInt") ∧
  HttpQueryResult_new ["a"] [[("a", VObject [("micros", VString "abc")])]]
  = Raised (JsError "SyntaxError" "Cannot convert abc to a BigInt") ∧
  (∀ columns data row col text,
     row ∈ data → col ∈ columns →
     get col row = Some (VObject [("micros", VString text)]) →
     StringToBigInt text = None →
     ∃ e, HttpQueryResult_new columns data = Raised e).
Proof.
  split; [reflexivity|]. split; [reflexivity|].
  intros columns data row col text Hrow Hcol Hcell Htext.
  destruct (mapM_raises (λ col, transformValue (cell row col)) columns col
              (JsError "SyntaxError" ("Cannot convert " +:+ text +:+ " to a BigInt")) Hcol)
    as [e1 Hcells].
  { unfold cell. rewrite Hcell.
    change (transformValue (VObject [("micros", VString text)]) = Raised
              (JsError "SyntaxError" ("Cannot convert " +:+ text +:+ " to a BigInt"))).
    rewrite transformValue_micros. cbn [BigInt]. by rewrite Htext. }
  destruct (mapM_raises (λ row, mapM (λ col, transformValue (cell row col)) columns)
              data row e1 Hrow Hcells) as [e Hrows].
  exists e. unfold HttpQueryResult_new. by rewrite Hrows.
Qed.

Lemma invalid_micros_raises_witness :
  ∃ e, HttpQueryResult_new (H := sample_host) ["id"; "at"]
         [[("id", VNumber 1); ("at", VObject [("micros", VString "1700000000000000")])];
          [("id", VNumber 2); ("at", VObject [("micros", VString "12:30")])]]
       = Raised e.
Proof.
  refine (proj2 (proj2 (invalid_micros_raises (H := sample_host)))
            ["id"; "at"] _ [("id", VNumber 2); ("at", VObject [("micros", VString "12:30")])]
            "at" "12:30" _ _ _ _).
  - apply list_elem_of_further, list_elem_of_here.
  - apply list_elem_of_further, list_elem_of_here.
  - reflexivity.
  - reflexivity.
Defined.

(** ** The prepared statement *)

Section PreparedStatementFacts.
Context {R : Type}.

Lemma destroyed_forever (this : t R) (cs : list call) :
  destroyed this = true → boundValues this = [] →
  destroyed (after_all this cs) = true ∧ boundValues (after_all this cs) = [].
Proof.
  unfold after_all. revert this. induction cs as [|c cs IH]; intros this Hd Hb; [done|].
  cbn [foldl]. apply IH; destruct c as [values| |]; cbn [after]; try done.
  - unfold bind. by rewrite Hd.
  - unfold bind. by rewrite Hd.
Qed.

Lemma alive_until_destroyed (this : t R) (cs : list call) :
  destroyed this = false → DestroySync ∉ cs →
  destroyed (after_all this cs) = false ∧
  query (after_all this cs) = query this ∧
  executor (after_all this cs) = executor this ∧
  boundValues (after_all this cs) = last_bound (boundValues this) cs.
Proof.
  unfold after_all, last_bound. revert this.
  induction cs as [|c cs IH]; intros this Hd Hcs; [done|].
  apply not_elem_of_cons in Hcs as [Hc Hcs]. cbn [foldl].
  destruct c as [values| |]; [| |done]; cbn [after].
  - unfold bind. rewrite Hd. cbn.
    destruct (IH {| query := query this; executor := executor this;
                    boundValues := values; destroyed := false |} eq_refl Hcs)
      as (? & ? & ? & ?).
    done.
  - by apply IH.
Qed.

End PreparedStatementFacts.

(** C9: after [destroySync()], whatever calls follow, every [bind(...)] and
    every [run()] raises the error of a destroyed statement, and the bound
    value list is empty; before destruction, [run()] executes the stored query
    with the values of the most recent [bind] ([bind] replaces the list). *)
Theorem prepared_statement_lifecycle {R : Type} (this : t R) :
  boundValues (destroySync this) = [] ∧
  (∀ cs values,
     bind (after_all (destroySync this) cs) values
     = Raised (JsError "Error" "Cannot bind to destroyed prepared statement") ∧
     run (after_all (destroySync this) cs)
     = Raised (JsError "Error" "Cannot run destroyed prepared statement") ∧
     boundValues (after_all (destroySync this) cs) = []) ∧
  (∀ cs, destroyed this = false → DestroySync ∉ cs →
     run (after_all this cs)
     = executor this (query this) (last_bound (boundValues this) cs)) ∧
  (∀ first second, destroyed this = false →
     ∃ bound rebound,
       bind this first = Returned bound ∧ bind bound second = Returned rebound ∧
       boundValues rebound = second ∧
       run rebound = executor this (query this) second).
Proof.
  split; [done|]. split; [|split].
  - intros cs values.
    destruct (destroyed_forever (destroySync this) cs eq_refl eq_refl) as [Hd Hb].
    unfold bind, run. by rewrite Hd.
  - intros cs Hd Hcs.
    destruct (alive_until_destroyed this cs Hd Hcs) as (Hd' & Hq & He & Hb).
    unfold run. by rewrite Hd', Hq, He, Hb.
  - intros first second Hd. unfold bind, run. rewrite Hd. cbn.
    by eexists _, _.
Qed.

Lemma prepared_statement_lifecycle_witness :
  run (after_all (new "SELECT $1::INTEGER AS v" echo_executor)
                 [Bind [VNumber 1]; Run; Bind [VNumber 42]])
  = Returned ("SELECT $1::INTEGER AS v", [VNumber 42]).
Proof.
  refine (proj1 (proj2 (proj2 (prepared_statement_lifecycle
                                 (new "SELECT $1::INTEGER AS v" echo_executor))))
            [Bind [VNumber 1]; Run; Bind [VNumber 42]] eq_refl _).
  intros Hin. repeat (apply elem_of_cons in Hin as [Hin|Hin]; [discriminate Hin|]).
  by apply elem_of_nil in Hin.
Defined.

(** ** Column names *)

Lemma dedup_names_lookup (seen : gmap string Z) (names : list string) (i : nat)
    (name : string) :
  names !! i = Some name →
  dedup_names seen names !! i
  = Some (suffixed name (default 0 (seen !! name) + earlier names i name)).
Proof.
  revert seen i. induction names as [|n names IH]; intros seen i Hi; [done|].
  destruct i as [|i].
  - cbn in Hi. injection Hi as ->. cbn [dedup_names lookup list_lookup].
    unfold earlier, suffixed. cbn [take filter list_filter length].
    by rewrite Z.add_0_r.
  - cbn in Hi. cbn [dedup_names]. rewrite lookup_cons_ne_0 by done. cbn [Nat.pred].
    rewrite (IH _ i Hi). f_equal. f_equal.
    unfold earlier. cbn [take]. rewrite filter_cons.
    destruct (decide (n = name)) as [->|Hne].
    + rewrite lookup_insert_eq. cbn [default from_option id length]. lia.
    + rewrite lookup_insert_ne by done. lia.
Qed.

(** X1: the suffix rule of [deduplicatedColumnNames]: the first occurrence of a
    name is kept, and the occurrence that k equal names precede gets the
    suffix _k. *)
Lemma deduplicatedColumnNames_suffixes (names : list string) (i : nat) (name : string) :
  names !! i = Some name →
  deduplicatedColumnNames (result_of names) !! i
  = Some (suffixed name (earlier names i name)).
Proof.
  intros Hi. unfold deduplicatedColumnNames. cbn [columns result_of].
  rewrite (dedup_names_lookup ∅ names i name Hi), lookup_empty. done.
Qed.

Lemma deduplicatedColumnNames_suffixes_witness :
  deduplicatedColumnNames (result_of ["x"; "y"; "x"; "x"]) !! 3%nat
  = Some (suffixed "x" (earlier ["x"; "y"; "x"; "x"] 3 "x")).
Proof.
  refine (deduplicatedColumnNames_suffixes ["x"; "y"; "x"; "x"] 3 "x" _).
  reflexivity.
Defined.

Lemma deduplicatedColumnNames_pair :
  deduplicatedColumnNames (result_of ["x"; "x"]) = ["x"; "x_1"].
Proof. vm_compute. reflexivity. Qed.

(** C8: the suffix rule holds, but the names handed to the caller are not
    always pairwise unique.  For the columns x, x, x_1 the second x becomes
    x_1 and collides with the third column, which is kept as it is. *)
Theorem deduplicatedColumnNames_collision :
  deduplicatedColumnNames (result_of ["x"; "x"; "x_1"]) = ["x"; "x_1"; "x_1"] ∧
  ¬ NoDup (deduplicatedColumnNames (result_of ["x"; "x"; "x_1"])).
Proof.
  assert (deduplicatedColumnNames (result_of ["x"; "x"; "x_1"]) = ["x"; "x_1"; "x_1"]) as Heq.
  { vm_compute. reflexivity. }
  split; [exact Heq|]. rewrite Heq. intros Hnodup.
  apply NoDup_cons in Hnodup as [_ Hnodup].
  apply NoDup_cons in Hnodup as [Hnotin _].
  apply Hnotin, list_elem_of_here.
Qed.

(** ** When the deduplicated names are unique *)

Lemma pretty_N_go_no_underscore (x : N) (s : string) :
  no_underscore s → no_underscore (pretty_N_go x s).
Proof.
  revert s. induction (N.lt_wf_0 x) as [x _ IH]; intros s Hs.
  assert (x = 0 ∨ 0 < x)%N as [->|Hpos] by lia; [by rewrite pretty_N_go_0|].
  rewrite pretty_N_go_step by done. apply IH; [by apply N.div_lt|].
  unfold no_underscore in *. cbn [Js.all_code_units]. rewrite Hs, andb_true_r.
  unfold pretty_N_char. by repeat case_match.
Qed.

Lemma num_no_underscore (k : Z) : 0 < k → no_underscore (Js.num k).
Proof.
  destruct k as [|p|p]; [lia| |lia]. intros _.
  unfold Js.num, pretty, pretty_Z, pretty, pretty_positive, pretty, pretty_N.
  rewrite decide_False by done. by apply pretty_N_go_no_underscore.
Qed.

Lemma no_underscore_inside (x y : string) : ¬ no_underscore (x +:+ String "_" y).
Proof.
  unfold no_underscore. induction x as [|c x IH]; [done|].
  rewrite append_cons. cbn [Js.all_code_units]. by intros [_ ?]%andb_true_iff.
Qed.

Lemma underscore_split (a b u v : string) :
  no_underscore u → no_underscore v →
  a +:+ String "_" u = b +:+ String "_" v → a = b ∧ u = v.
Proof.
  intros Hu Hv. revert b. induction a as [|c a IH]; intros [|d b] Heq.
  - rewrite (append_empty_l (String "_" u)), (append_empty_l (String "_" v)) in Heq.
    by injection Heq as ->.
  - rewrite (append_empty_l (String "_" u)), append_cons in Heq. injection Heq as <- ->.
    by apply no_underscore_inside in Hu.
  - rewrite (append_empty_l (String "_" v)), append_cons in Heq. injection Heq as -> <-.
    by apply no_underscore_inside in Hv.
  - rewrite !append_cons in Heq. injection Heq as -> Heq.
    destruct (IH b Heq) as [-> ->]. done.
Qed.

Lemma earlier_nonneg (names : list string) (i : nat) (name : string) :
  0 ≤ earlier names i name.
Proof. unfold earlier. lia. Qed.

Lemma earlier_step (names : list string) (i : nat) (name : string) :
  names !! i = Some name → earlier names (S i) name = earlier names i name + 1.
Proof.
  intros Hi. unfold earlier. rewrite (take_S_r _ _ _ Hi), filter_app, length_app.
  rewrite filter_cons, decide_True by done. cbn. lia.
Qed.

Lemma earlier_mono (names : list string) (i j : nat) (name : string) :
  (i ≤ j)%nat → earlier names i name ≤ earlier names j name.
Proof.
  intros Hij. unfold earlier.
  replace (take i names) with (take i (take j names)) by (rewrite take_take; f_equal; lia).
  rewrite <- (take_drop i (take j names)) at 2.
  rewrite filter_app, length_app. lia.
Qed.

Lemma earlier_inj (names : list string) (i j : nat) (name : string) :
  names !! i = Some name → names !! j = Some name →
  earlier names i name = earlier names j name → i = j.
Proof.
  intros Hi Hj Heq.
  destruct (Nat.lt_trichotomy i j) as [Hlt|[->|Hlt]]; [|done|].
  - pose proof (earlier_step names i name Hi).
    pose proof (earlier_mono names (S i) j name ltac:(lia)). lia.
  - pose proof (earlier_step names j name Hj).
    pose proof (earlier_mono names (S j) i name ltac:(lia)). lia.
Qed.

Lemma dedup_names_length (seen : gmap string Z) (names : list string) :
  length (dedup_names seen names) = length names.
Proof.
  revert seen. induction names as [|n names IH]; intros seen; [done|].
  cbn [dedup_names length]. by rewrite IH.
Qed.

(** X2: the names handed to the caller are pairwise unique when no column
    name is another column name followed by a suffix [_k]. *)
Theorem deduplicatedColumnNames_unique (names : list string) :
  collision_free names → NoDup (deduplicatedColumnNames (result_of names)).
Proof.
  intros Hfree. apply NoDup_alt. intros i j x Hi Hj.
  unfold deduplicatedColumnNames in Hi, Hj. cbn [columns result_of] in Hi, Hj.
  destruct (names !! i) as [a|] eqn:Ha.
  2:{ apply lookup_ge_None in Ha. apply lookup_lt_Some in Hi.
      rewrite dedup_names_length in Hi. lia. }
  destruct (names !! j) as [b|] eqn:Hb.
  2:{ apply lookup_ge_None in Hb. apply lookup_lt_Some in Hj.
      rewrite dedup_names_length in Hj. lia. }
  rewrite (dedup_names_lookup ∅ names i a Ha), lookup_empty in Hi.
  rewrite (dedup_names_lookup ∅ names j b Hb), lookup_empty in Hj.
  cbn [default from_option id] in Hi, Hj. rewrite Z.add_0_l in Hi, Hj.
  injection Hi as Hi. injection Hj as Hj. subst x.
  pose proof (earlier_nonneg names i a) as Hci.
  pose proof (earlier_nonneg names j b) as Hcj.
  pose proof (list_elem_of_lookup_2 _ _ _ Ha) as Hina.
  pose proof (list_elem_of_lookup_2 _ _ _ Hb) as Hinb.
  unfold suffixed in Hj.
  destruct (earlier names j b =? 0) eqn:Hzj, (earlier names i a =? 0) eqn:Hzi.
  - subst b. apply Z.eqb_eq in Hzi, Hzj. apply (earlier_inj names i j a); [done..|lia].
  - apply Z.eqb_neq in Hzi. by destruct (Hfree b a (earlier names i a)); [..|lia|].
  - apply Z.eqb_neq in Hzj. by destruct (Hfree a b (earlier names j b)); [..|lia|].
  - apply Z.eqb_neq in Hzi, Hzj.
    change (b +:+ String "_" (Js.num (earlier names j b))
            = a +:+ String "_" (Js.num (earlier names i a))) in Hj.
    apply underscore_split in Hj as [-> Hk]; [|apply num_no_underscore; lia..].
    apply (inj pretty) in Hk. by apply (earlier_inj names i j a).
Qed.

Lemma deduplicatedColumnNames_unique_witness :
  NoDup (deduplicatedColumnNames (result_of ["id"; "name"; "id"])).
Proof.
  refine (deduplicatedColumnNames_unique ["id"; "name"; "id"] _).
  intros a b k Ha Hb Hk Heq.
  assert (no_underscore a) as Hclean.
  { repeat (apply elem_of_cons in Ha as [->|Ha]; [reflexivity|]). by apply elem_of_nil in Ha. }
  rewrite Heq in Hclean. by apply (no_underscore_inside b (Js.num k)) in Hclean.
Defined.

(** ** Parameter substitution *)

(** The literal of every kind of value: NULL, TRUE and FALSE, decimal
    text, the quoted string with its quotes doubled, the quoted ISO text of a
    valid Date, the hex literal cast to BLOB, the bare number of a
    one-element numeric array, the bracketed list of any other array, and the
    quoted JSON text cast to JSON. *)
Lemma formatValue_literals `{Host} :
  formatValue VNull = Returned "NULL" ∧
  formatValue (VBool true) = Returned "TRUE" ∧
  formatValue (VBool false) = Returned "FALSE" ∧
  (∀ n, formatValue (VNumber n) = Returned (Js.num n)) ∧
  (∀ n, formatValue (VBigInt n) = Returned (Js.num n)) ∧
  (∀ s, formatValue (VString s) = Returned ("'" +:+ double_quotes s +:+ "'")) ∧
  (∀ t, formatValue (VDate (Some t)) = Returned ("'" +:+ toISOString t +:+ "'")) ∧
  (∀ bytes, formatValue (VBytes bytes)
            = Returned ("'\x" +:+ Js.join (map hex_byte bytes) EmptyString +:+ "'::BLOB")) ∧
  (∀ n, formatValue (VArray [VNumber n]) = Returned (Js.num n)) ∧
  (∀ items formatted, (∀ n, items ≠ [VNumber n]) →
     mapM formatValue items = Returned formatted →
     formatValue (VArray items) = Returned ("[" +:+ Js.join formatted ", " +:+ "]")) ∧
  (∀ fields json, JSON_stringify (VObject fields) = Returned json →
     formatValue (VObject fields) = Returned ("'" +:+ double_quotes json +:+ "'::JSON")).
Proof.
  repeat split; try done.
  - intros items formatted Hitems Hmap. cbn [formatValue].
    change ((fix go (l : list Value) : Completion (list string) :=
               match l with
               | [] => mret []
               | x :: l0 => y ← formatValue x; k ← go l0; mret (y :: k)
               end) items) with (mapM formatValue items).
    rewrite Hmap.
    destruct items as [|[] [|]]; try done. by destruct (Hitems n).
  - intros fields json Hjson. cbn [formatValue]. by rewrite Hjson.
Qed.

(** Binding the one-element array [25] for [$1] after LIMIT gives LIMIT 25. *)
Lemma substituteParams_limit_array `{Host} :
  substituteParams "SELECT * FROM events LIMIT $1" [VArray [VNumber 25]]
  = Returned "SELECT * FROM events LIMIT 25".
Proof. vm_compute. reflexivity. Qed.

(** C6: the substitution goes through the parameters in turn and replaces
    text, so the placeholder of the first parameter is also found inside
    [$10]: with ten parameters, [$10] is not replaced by the literal of the
    tenth ('j') but by the literal of the first followed by 0.  For the same
    reason a placeholder inside an already substituted literal is replaced
    again. *)
Theorem substituteParams_prefix_collision `{Host} :
  substituteParams "SELECT $1, $10" ten_names = Returned "SELECT 'a', 'a'0" ∧
  ten_names !! 9%nat = Some (VString "j") ∧
  formatValue (VString "j") = Returned "'j'" ∧
  substituteParams "SELECT $1, $2" [VString "costs $2"; VNumber 5]
  = Returned "SELECT 'costs 5', 5".
Proof. repeat split; vm_compute; reflexivity. Qed.

(** ** Substitution where placeholders do not collide *)

Lemma split_go_nonempty (sep : string) (skip : nat) (s : string) :
  Js.split_go sep skip s ≠ [].
Proof.
  revert skip. induction s as [|c s IH]; intros skip; [done|].
  cbn [Js.split_go]. destruct skip; [|apply IH].
  destruct (Js.startsWith _ _); [done|].
  by destruct (Js.split_go sep 0 s).
Qed.

Lemma split_go_skip (sep pre s : string) :
  Js.split_go sep (String.length pre) (pre +:+ s) = Js.split_go sep 0 s.
Proof. induction pre as [|c pre IH]; [done|]. by rewrite append_cons. Qed.

Lemma startsWith_append (sep s : string) : Js.startsWith (sep +:+ s) sep = true.
Proof.
  induction sep as [|c sep IH]; [by destruct s|].
  rewrite append_cons. cbn [Js.startsWith]. by rewrite bool_decide_eq_true_2, IH.
Qed.

Lemma join_push (c : ascii) (piece : string) (pieces : list string) (v : string) :
  Js.join (String c piece :: pieces) v = String c (Js.join (piece :: pieces) v).
Proof. destruct pieces; [done|]. cbn [Js.join]. by rewrite append_cons. Qed.

Lemma replace_all_empty (sep v : string) :
  sep ≠ EmptyString → replace_all EmptyString sep v = EmptyString.
Proof. by destruct sep. Qed.

Lemma replace_all_other (c : ascii) (s sep v : string) :
  sep ≠ EmptyString → Js.startsWith (String c s) sep = false →
  replace_all (String c s) sep v = String c (replace_all s sep v).
Proof.
  intros Hsep Hstart. unfold replace_all, Js.split.
  destruct sep as [|d sep]; [done|]. cbn [Js.split_go]. rewrite Hstart.
  pose proof (split_go_nonempty (String d sep) 0 s) as Hne.
  destruct (Js.split_go (String d sep) 0 s) as [|piece pieces]; [done|].
  apply join_push.
Qed.

Lemma replace_all_match (s sep v : string) :
  sep ≠ EmptyString → replace_all (sep +:+ s) sep v = v +:+ replace_all s sep v.
Proof.
  intros Hsep. unfold replace_all, Js.split.
  destruct sep as [|d sep]; [done|].
  pose proof (startsWith_append (String d sep) s) as Hstart.
  rewrite append_cons in *. cbn [Js.split_go]. rewrite Hstart.
  replace (String.length (String d sep) - 1)%nat with (String.length sep) by (cbn; lia).
  rewrite split_go_skip.
  pose proof (split_go_nonempty (String d sep) 0 s) as Hne.
  destruct (Js.split_go (String d sep) 0 s) as [|piece pieces]; [done|].
  cbn [Js.join]. by rewrite append_empty_l.
Qed.

Lemma placeholder_digit (k : nat) :
  (1 ≤ k ≤ 9)%nat →
  ∃ d, placeholder k = String "$" (String d EmptyString) ∧
       d ≠ "$"%char ∧ Z.of_N (Js.code d) = Z.of_nat k + 48.
Proof.
  intros Hk.
  assert (k = 1 ∨ k = 2 ∨ k = 3 ∨ k = 4 ∨ k = 5 ∨ k = 6 ∨ k = 7 ∨ k = 8 ∨ k = 9)%nat
    as Hcases by lia.
  repeat (destruct Hcases as [->|Hcases]; [by eexists|]). subst k. by eexists.
Qed.

Lemma replace_all_dollar_free (t s sep v : string) (d : ascii) :
  sep = String "$" (String d EmptyString) → dollar_free t →
  replace_all (t +:+ s) sep v = t +:+ replace_all s sep v.
Proof.
  intros -> Ht. unfold dollar_free in Ht. induction t as [|c t IH]; [done|].
  cbn [Js.all_code_units] in Ht. apply andb_true_iff in Ht as [Hc Ht].
  rewrite !append_cons. rewrite replace_all_other.
  - by rewrite IH.
  - done.
  - cbn [Js.startsWith]. apply negb_true_iff, bool_decide_eq_false_1 in Hc.
    case_bool_decide; [by subst c|done].
Qed.

Section SubstitutionFacts.
Context `{Host}.

(** One round of the loop replaces the placeholder it looks for, and nothing
    else, in a text whose other dollar signs all start placeholders. *)
Lemma replace_all_render (j : nat) (lit : string) (fill : nat → option string)
    (segs : list segment) :
  (1 ≤ j ≤ 9)%nat → Forall well_formed segs →
  (∀ k v, fill k = Some v → dollar_free v) → fill j = None →
  replace_all (render fill segs) (placeholder j) lit
  = render (λ k, if decide (k = j) then Some lit else fill k) segs.
Proof.
  intros Hj Hwf Hfill Hnone.
  destruct (placeholder_digit j Hj) as (dj & Hpj & Hdj & Hcj).
  induction Hwf as [|seg segs Hseg _ IH]; [by rewrite Hpj|].
  destruct seg as [s|k]; cbn [render well_formed] in *.
  - by rewrite (replace_all_dollar_free s _ _ _ dj Hpj Hseg), IH.
  - destruct (decide (k = j)) as [->|Hkj].
    + rewrite Hnone. cbn [default from_option id].
      rewrite replace_all_match, IH; [done|by rewrite Hpj].
    + destruct (fill k) as [v|] eqn:Hk; cbn [default from_option id].
      * by rewrite (replace_all_dollar_free v _ _ _ dj Hpj (Hfill k v Hk)), IH.
      * destruct (placeholder_digit k Hseg) as (dk & Hpk & Hdk & Hck).
        rewrite Hpk at 1. rewrite !append_cons, append_empty_l.
        rewrite replace_all_other; [| by rewrite Hpj |].
        2:{ rewrite Hpj. cbn [Js.startsWith]. case_bool_decide; [|done].
            case_bool_decide; [|done]. subst dk. lia. }
        rewrite replace_all_other; [| by rewrite Hpj |].
        2:{ rewrite Hpj. cbn [Js.startsWith]. case_bool_decide; [by subst dk|done]. }
        rewrite IH, Hpk. by rewrite !append_cons, append_empty_l.
Qed.

Lemma render_ext (f g : nat → option string) (segs : list segment) :
  (∀ k, f k = g k) → render f segs = render g segs.
Proof.
  intros Hfg. induction segs as [|[s|k] segs IH]; [done|..]; cbn [render].
  - by rewrite IH.
  - by rewrite Hfg, IH.
Qed.

Lemma substitute_from_render (params : list Value) (literals : list string) (i : nat)
    (fill : nat → option string) (segs : list segment) :
  mapM formatValue params = Returned literals →
  Forall dollar_free literals →
  (i + length params ≤ 9)%nat → Forall well_formed segs →
  (∀ k v, fill k = Some v → dollar_free v) →
  (∀ k, (i < k)%nat → fill k = None) →
  substitute_from i params (render fill segs)
  = Returned (render (λ k, if decide (i < k ≤ i + length literals)%nat
                           then literals !! (k - i - 1)%nat else fill k) segs).
Proof.
  revert literals i fill. induction params as [|param params IH];
    intros literals i fill Hlits Hfree Hlen Hwf Hfill Hnone.
  - cbn in Hlits. injection Hlits as <-. cbn [substitute_from length]. f_equal.
    apply render_ext. intros k. by rewrite decide_False by lia.
  - cbn [mapM] in Hlits. destruct (formatValue param) as [lit|e] eqn:Hparam; [|done].
    cbn in Hlits. destruct (mapM formatValue params) as [lits|e] eqn:Hrest; [|done].
    cbn in Hlits. injection Hlits as <-.
    apply Forall_cons in Hfree as [Hlit Hfree]. cbn [length] in Hlen.
    cbn [substitute_from]. rewrite Hparam. cbn [mbind completion_bind].
    replace (Z.of_nat i + 1) with (Z.of_nat (S i)) by lia.
    change ("$" +:+ Js.num (Z.of_nat (S i))) with (placeholder (S i)).
    change (Js.join (Js.split ?s ?sep) ?v) with (replace_all s sep v).
    rewrite replace_all_render; [|lia|done|done|apply Hnone; lia].
    rewrite (IH lits (S i)); [|done|done|lia|done| |].
    + f_equal. apply render_ext. intros k. cbn [length].
      destruct (decide (k = S i)) as [->|Hk].
      * rewrite decide_False by lia. rewrite decide_True by lia.
        by replace (S i - i - 1)%nat with 0%nat by lia.
      * destruct (decide (S i < k ≤ S i + length lits)%nat).
        -- rewrite decide_True by lia.
           by replace (k - i - 1)%nat with (S (k - S i - 1)) by lia.
        -- rewrite decide_False by lia. done.
    + intros k v. destruct (decide (k = S i)); [by intros [= <-]|apply Hfill].
    + intros k Hk. rewrite decide_False by lia. apply Hnone. lia.
Qed.

End SubstitutionFacts.

(** X3: with at most nine parameters whose literals hold no dollar sign, and
    a query whose dollar signs all start a placeholder [$1] to [$9],
    [substituteParams] replaces every placeholder that has a parameter by the
    literal of that parameter and leaves the rest of the text as it is. *)
Theorem substituteParams_replaces_placeholders `{Host}
    (params : list Value) (literals : list string) (segs : list segment) :
  (length params ≤ 9)%nat →
  mapM formatValue params = Returned literals →
  Forall dollar_free literals →
  Forall well_formed segs →
  substituteParams (render (λ _, None) segs) params
  = Returned (render (literal_of literals) segs).
Proof.
  intros Hlen Hlits Hfree Hwf. unfold substituteParams.
  destruct params as [|param params].
  - cbn in Hlits. injection Hlits as <-. cbn. f_equal. apply render_ext.
    by intros [|k].
  - cbn [length Nat.eqb].
    rewrite (substitute_from_render _ literals 0 (λ _, None) segs); try done.
    f_equal. apply render_ext. intros [|k]; cbn [literal_of].
    + by rewrite decide_False by lia.
    + destruct (decide (0 < S k ≤ 0 + length literals)%nat) as [Hk|Hk].
      * by replace (S k - 0 - 1)%nat with k by lia.
      * symmetry. apply lookup_ge_None. lia.
Qed.

Lemma substituteParams_replaces_placeholders_witness :
  substituteParams (H := sample_host)
    (render (λ _, None)
       [Text "SELECT * FROM t WHERE a = "; Hole 1; Text " AND b = "; Hole 2;
        Text " OR a = "; Hole 1])
    [VString "it's"; VNumber 7]
  = Returned
      (render (literal_of ["'it''s'"; "7"])
         [Text "SELECT * FROM t WHERE a = "; Hole 1; Text " AND b = "; Hole 2;
          Text " OR a = "; Hole 1]).
Proof.
  refine (substituteParams_replaces_placeholders (H := sample_host)
            [VString "it's"; VNumber 7] ["'it''s'"; "7"] _ _ eq_refl _ _).
  - vm_compute. lia.
  - repeat constructor.
  - repeat constructor; vm_compute; lia.
Defined.

(** ** Further properties of the validator and of the identifier checks *)

(** X4: the deny-list pattern, read declaratively, for the names of the
    deny-list: on the lower-cased text it matches exactly when the text holds
    the name, optional white space and an opening parenthesis, the name not
    following a letter, a digit or an underscore. *)
Theorem deny_list_pattern_reading (func sql : string) :
  func ∈ DANGEROUS_FUNCTIONS →
  Js.call_pattern_test func (Js.toLowerCase sql) = true ↔ boundary_call_match func sql.
Proof.
  intros Hfunc. apply call_pattern_test_boundary.
  pose proof deny_list_plain_names as Hall. rewrite Forall_forall in Hall. by apply Hall.
Qed.

Lemma deny_list_pattern_reading_witness :
  Js.call_pattern_test "load" (Js.toLowerCase "SELECT LOAD (1)") = true ↔
  boundary_call_match "load" "SELECT LOAD (1)".
Proof.
  refine (deny_list_pattern_reading "load" "SELECT LOAD (1)" _).
  apply (bool_decide_unpack _). vm_compute. exact I.
Defined.

(** A blank text is rejected as empty before anything else is looked at,
    whatever the classifier and the configuration. *)
Theorem blank_query_rejected
    (identify : string → Completion (list Result)) (config : option SqlGuardConfig) :
  (∀ sql, Js.trim sql = EmptyString →
     validateSql identify sql config = Returned (rejected "SQL query is empty")) ∧
  validateSql identify EmptyString config = Returned (rejected "SQL query is empty") ∧
  validateSql identify "   " config = Returned (rejected "SQL query is empty").
Proof.
  assert (∀ sql, Js.trim sql = EmptyString →
            validateSql identify sql config = Returned (rejected "SQL query is empty")) as Hblank.
  { intros sql Hsql. rewrite validateSql_steps. by rewrite bool_decide_eq_true_2. }
  split; [exact Hblank|]. split; by apply Hblank.
Qed.

(** The identifier checks on the examples of the specification: a leading
    digit fails the pattern, a keyword is refused, and an identifier longer
    than [maxLength] is refused with the configured limit. *)
Theorem validateIdentifier_rejections :
  validateIdentifier "1abc" None
  = {| id_valid := false;
       error := Some "Identifier must start with a letter or underscore and contain only letters, digits, or underscores";
       sanitized := None |} ∧
  validateIdentifier "select" None
  = {| id_valid := false; error := Some "'select' is a SQL reserved keyword";
       sanitized := None |} ∧
  validateIdentifier (Js.join (replicate 100 "a") EmptyString) None
  = {| id_valid := false;
       error := Some "Identifier exceeds maximum length of 63 characters";
       sanitized := None |} ∧
  (∀ identifier config,
     Js.trim identifier ≠ EmptyString →
     req_maxLength (spread_identifier config) < Js.length (Js.trim identifier) →
     validateIdentifier identifier config
     = {| id_valid := false;
          error := Some ("Identifier exceeds maximum length of "
                           +:+ Js.num (req_maxLength (spread_identifier config))
                           +:+ " characters");
          sanitized := None |}).
Proof.
  split; [vm_compute; reflexivity|]. split; [vm_compute; reflexivity|].
  split; [vm_compute; reflexivity|].
  intros identifier config Hblank Hlong. unfold validateIdentifier.
  rewrite trim_blank, bool_decide_eq_false_2 by done.
  destruct (_ >? _) eqn:Hgt; [done|]. rewrite Z.gtb_ltb in Hgt. apply Z.ltb_ge in Hgt. lia.
Qed.

(** Qualified table names on the examples of the specification: a name in
    an allowed namespace is accepted and returned as it is, another namespace
    is refused, a name without a dot is refused, and the namespace is compared
    without regard to case. *)
Theorem validateQualifiedTableName_examples :
  validateQualifiedTableName "analytics.events" None
  = {| id_valid := true; error := None; sanitized := Some "analytics.events" |} ∧
  validateQualifiedTableName "other.events" None
  = {| id_valid := false;
       error := Some "Invalid namespace: Namespace 'other' is not in the allowed list: [analytics]";
       sanitized := None |} ∧
  id_valid (validateQualifiedTableName "analytics" None) = false ∧
  id_valid (validateQualifiedTableName "ANALYTICS.events" None) = true.
Proof. repeat split; vm_compute; reflexivity. Qed.

(** ** When the validator accepts *)

Lemma matched_functions_none (sql : string) :
  matched_functions sql = [] ↔
  ∀ func, func ∈ DANGEROUS_FUNCTIONS → ¬ boundary_call_match func sql.
Proof.
  unfold matched_functions. split.
  - intros Hnone func Hfunc Hmatch.
    assert (func ∈ filter (λ func, Js.call_pattern_test func (Js.toLowerCase sql) = true)
                     DANGEROUS_FUNCTIONS) as Hin.
    { apply list_elem_of_filter. split; [|done].
      apply call_pattern_test_boundary; [|done].
      pose proof deny_list_plain_names as Hall. rewrite Forall_forall in Hall. by apply Hall. }
    rewrite Hnone in Hin. by apply elem_of_nil in Hin.
  - intros Hnone.
    destruct (filter _ DANGEROUS_FUNCTIONS) as [|func rest] eqn:Hfilter; [done|].
    assert (func ∈ filter (λ func, Js.call_pattern_test func (Js.toLowerCase sql) = true)
                     DANGEROUS_FUNCTIONS) as Hin by (rewrite Hfilter; apply list_elem_of_here).
    apply list_elem_of_filter in Hin as [Htest Hfunc].
    destruct (Hnone func Hfunc). apply call_pattern_test_boundary; [|done].
    pose proof deny_list_plain_names as Hall. rewrite Forall_forall in Hall. by apply Hall.
Qed.

Lemma selectOnly_passes (cfg : RequiredSqlGuardConfig) (stmt : Result) :
  (req_selectOnly cfg = true → isAllowedStatementType (type stmt) = Returned true) ↔
  untyped cfg stmt = false ∧ type_refused cfg stmt = false.
Proof.
  unfold untyped, type_refused, isAllowedStatementType.
  destruct (req_selectOnly cfg); cbn [andb]; [|done].
  destruct (type stmt) as [t|].
  - rewrite (bool_decide_eq_false_2 (Some t = None)) by done.
    destruct (bool_decide (Some t = Some "SELECT")); [done|].
    destruct (Js.startsWith t "SHOW_"); cbn; split; try done.
    + intros Hallowed. by specialize (Hallowed eq_refl).
    + by intros [_ ?].
  - cbn. split; [|by intros [? _]].
    intros Hallowed. by specialize (Hallowed eq_refl).
Qed.

Lemma statement_errors_none (cfg : RequiredSqlGuardConfig) (stmt : Result) :
  statement_errors cfg stmt = [] ↔
  type_refused cfg stmt = false ∧ executionType stmt ≠ Some "MODIFICATION".
Proof.
  unfold statement_errors. rewrite app_nil.
  destruct (type_refused cfg stmt); case_bool_decide;
    split; intros [Htype Hwrite]; try done.
Qed.

Lemma dangerous_errors_none (cfg : RequiredSqlGuardConfig) (sql : string) :
  dangerous_errors cfg sql = [] ↔
  (req_blockDangerousFunctions cfg = true →
   ∀ func, func ∈ DANGEROUS_FUNCTIONS → ¬ boundary_call_match func sql).
Proof.
  unfold dangerous_errors. rewrite <- matched_functions_none.
  destruct (req_blockDangerousFunctions cfg); [|done].
  destruct (matched_functions sql); split; intros Hnone; try done.
  by specialize (Hnone eq_refl).
Qed.

Lemma verdict_valid_iff (cfg : RequiredSqlGuardConfig) (sql : string) (stmt : Result) :
  untyped cfg stmt = false ∧ valid (verdict cfg sql stmt) = true ↔
  (req_selectOnly cfg = true → isAllowedStatementType (type stmt) = Returned true) ∧
  executionType stmt ≠ Some "MODIFICATION" ∧
  (req_blockDangerousFunctions cfg = true →
   ∀ func, func ∈ DANGEROUS_FUNCTIONS → ¬ boundary_call_match func sql).
Proof.
  unfold verdict. cbn [valid].
  rewrite bool_decide_eq_true, app_nil, statement_errors_none, dangerous_errors_none,
    selectOnly_passes.
  tauto.
Qed.

Lemma accepted_iff_acceptable
    (identify : string → Completion (list Result)) (sql : string)
    (config : option SqlGuardConfig) :
  (∃ result, validateSql identify sql config = Returned result ∧ valid result = true) ↔
  acceptable (spread config) identify sql.
Proof.
  unfold acceptable. rewrite validateSql_steps. split.
  - intros (result & Hresult & Hvalid).
    case_bool_decide as Hblank; [by injection Hresult as <-|].
    destruct (_ >? _) eqn:Hgt; [by injection Hresult as <-|].
    rewrite Z.gtb_ltb in Hgt. apply Z.ltb_ge in Hgt.
    destruct (identify sql) as [[|stmt [|stmt' more]]|err];
      try (by injection Hresult as <-).
    destruct (untyped (spread config) stmt) eqn:Huntyped; [done|].
    injection Hresult as <-.
    split; [done|]. split; [done|]. exists stmt. split; [done|].
    by apply verdict_valid_iff.
  - intros (Hblank & Hlen & stmt & Hid & Hok).
    rewrite bool_decide_eq_false_2 by done.
    destruct (_ >? _) eqn:Hgt; [apply Z.gtb_lt in Hgt; lia|].
    apply verdict_valid_iff in Hok as [Huntyped Hvalid].
    rewrite Hid, Huntyped. by eexists.
Qed.

(** X5: the validator accepts exactly the acceptable texts: those that are
    not blank, not longer than the limit, classified as one statement that is
    of an allowed type when [selectOnly] is set and is no modification, and
    that call no deny-listed function when [blockDangerousFunctions] is set. *)
Theorem validateSql_accepts_iff
    (identify : string → Completion (list Result)) (sql : string)
    (config : option SqlGuardConfig) :
  (∃ result, validateSql identify sql config = Returned result ∧ valid result = true) ↔
  acceptable (spread config) identify sql.
Proof. apply accepted_iff_acceptable. Qed.

(** X6: the three outcomes of [isReadOnlyQuery].  It answers true exactly
    for the texts acceptable under the default configuration: one statement
    of an allowed type that is no modification, at most 10000 code units, no
    call of a deny-listed function.  It throws exactly on a text past the
    two guards that is classified as one statement of undefined type, and
    then the TypeError of [type.startsWith].  On every other text it answers
    false. *)
Theorem isReadOnlyQuery_iff
    (identify : string → Completion (list Result)) (sql : string) :
  (isReadOnlyQuery identify sql = Returned true ↔ acceptable DEFAULT_CONFIG identify sql) ∧
  (∀ error, isReadOnlyQuery identify sql = Raised error ↔
            error = startsWith_of_undefined ∧ throws_on DEFAULT_CONFIG identify sql) ∧
  (isReadOnlyQuery identify sql = Returned false ↔
   ¬ acceptable DEFAULT_CONFIG identify sql ∧ ¬ throws_on DEFAULT_CONFIG identify sql).
Proof.
  rewrite isReadOnlyQuery_unfold.
  change DEFAULT_CONFIG
    with (spread (Some {| selectOnly := Some true; maxQueryLength := None;
                          blockDangerousFunctions := None |})).
  rewrite <- accepted_iff_acceptable.
  pose proof (validateSql_raises_iff identify sql
                (Some {| selectOnly := Some true; maxQueryLength := None;
                         blockDangerousFunctions := None |})) as Hraises.
  destruct (validateSql identify sql _) as [result|e]; cbn.
  - split; [|split].
    + split.
      * intros [= Hvalid]. by exists result.
      * intros (result' & [= <-] & ->). done.
    + intros error. split; [done|]. intros Hthrows. by apply Hraises in Hthrows.
    + split.
      * intros [= Hvalid]. split.
        -- intros (result' & [= <-] & Hvalid'). congruence.
        -- intros Hthrows.
           by pose proof (proj2 (Hraises startsWith_of_undefined) (conj eq_refl Hthrows)).
      * intros [Hrefused _]. destruct (valid result) eqn:Hvalid; [|done].
        destruct Hrefused. by exists result.
  - split; [|split].
    + split; [done|]. by intros (result & ? & _).
    + intros error. rewrite <- Hraises. split; by intros [= ->].
    + split; [done|]. intros [_ Hthrows]. destruct Hthrows.
      by apply (Hraises e).
Qed.

(** X7: a text accepted under a configuration is accepted under every
    configuration that is no stricter. *)
Theorem relaxing_keeps_acceptance
    (identify : string → Completion (list Result)) (sql : string)
    (strict relaxed : option SqlGuardConfig) :
  at_least_as_strict (spread strict) (spread relaxed) →
  (∃ result, validateSql identify sql strict = Returned result ∧ valid result = true) →
  ∃ result, validateSql identify sql relaxed = Returned result ∧ valid result = true.
Proof.
  intros (Hmax & Hselect & Hblock). rewrite !accepted_iff_acceptable.
  intros (Hblank & Hlen & stmt & Hid & Htype & Hwrite & Hfuncs).
  split; [done|]. split; [lia|]. exists stmt. naive_solver.
Qed.

Lemma relaxing_keeps_acceptance_witness :
  ∃ result,
    validateSql sample_identify "SELECT 1" (config_with false 20000 false) = Returned result ∧
    valid result = true.
Proof.
  refine (relaxing_keeps_acceptance sample_identify "SELECT 1" None
            (config_with false 20000 false) _ _).
  - split; [vm_compute; discriminate|]. by split.
  - eexists. split; [vm_compute; reflexivity|reflexivity].
Defined.

(** X8: whatever the configuration, a text with a modification among its
    classified statements is never accepted, and neither is a text with
    several statements or none: the call returns an invalid verdict with a
    non-empty error list, unless it is one of the calls that throw on a
    statement of undefined type. *)
Theorem modification_never_accepted
    (identify : string → Completion (list Result)) (sql : string)
    (config : option SqlGuardConfig) (statements : list Result) :
  identify sql = Returned statements →
  (length statements ≠ 1%nat ∨
   ∃ stmt, stmt ∈ statements ∧ executionType stmt = Some "MODIFICATION") →
  (∃ result, validateSql identify sql config = Returned result ∧
             valid result = false ∧ errors result ≠ []) ∨
  (throws_on (spread config) identify sql ∧
   validateSql identify sql config = Raised startsWith_of_undefined).
Proof.
  intros Hid Hbad.
  destruct (validateSql identify sql config) as [result|error] eqn:Hcall.
  2:{ right. apply validateSql_raises_iff in Hcall as [-> Hthrows]. done. }
  left. exists result. split; [done|].
  rewrite validateSql_steps, Hid in Hcall.
  case_bool_decide; [by injection Hcall as <-|].
  destruct (_ >? _); [by injection Hcall as <-|].
  destruct statements as [|stmt [|stmt' more]]; try (by injection Hcall as <-).
  destruct Hbad as [Hlen|(bad & Hin & Hmod)]; [done|].
  apply list_elem_of_singleton in Hin as ->.
  destruct (untyped (spread config) stmt) eqn:Huntyped; [done|].
  injection Hcall as <-.
  assert (valid (verdict (spread config) sql stmt) = false) as Hfalse.
  { destruct (valid _) eqn:Hv; [|done].
    apply (λ H, proj1 (verdict_valid_iff _ _ _) (conj Huntyped H)) in Hv
      as (_ & Hwrite & _).
    done. }
  split; [done|].
  unfold verdict in *. cbn [valid errors] in *. by apply bool_decide_eq_false_1 in Hfalse.
Qed.

Lemma modification_never_accepted_witness :
  ∃ result,
    validateSql
      (λ _, Returned [ {| type := Some "DELETE"; executionType := Some "MODIFICATION" |} ])
      "DELETE FROM t" (config_with false 10000 false) = Returned result ∧
    valid result = false ∧ errors result ≠ [].
Proof.
  destruct (modification_never_accepted
              (λ _, Returned [ {| type := Some "DELETE";
                                   executionType := Some "MODIFICATION" |} ])
              "DELETE FROM t" (config_with false 10000 false)
              [ {| type := Some "DELETE"; executionType := Some "MODIFICATION" |} ] eq_refl
              (or_intror (ex_intro _ {| type := Some "DELETE";
                                         executionType := Some "MODIFICATION" |}
                            (conj (list_elem_of_here _ _) eq_refl))))
    as [Hrejected|[_ Hraised]].
  - exact Hrejected.
  - vm_compute in Hraised. discriminate Hraised.
Defined.

(** ** What the identifier checks accept *)

Lemma all_code_units_impl (p q : ascii → bool) (s : string) :
  (∀ c, p c = true → q c = true) →
  Js.all_code_units p s = true → Js.all_code_units q s = true.
Proof.
  intros Hpq. induction s as [|c s IH]; [done|]. cbn [Js.all_code_units].
  intros [Hc Hs]%andb_true_iff. by rewrite (Hpq c Hc), IH.
Qed.

Lemma ident_part_not_space (c : ascii) : Js.is_ident_part c = true → Js.is_space c = false.
Proof.
  assert (forallb (λ c, implb (Js.is_ident_part c) (negb (Js.is_space c))) every_code_unit
          = true) as Hall by (vm_compute; reflexivity).
  pose proof (for_every_code_unit _ Hall c) as Hc. cbv beta in Hc.
  intros Hpart. rewrite Hpart in Hc. by apply negb_true_iff in Hc.
Qed.

Lemma ident_start_is_part (c : ascii) : Js.is_ident_start c = true → Js.is_ident_part c = true.
Proof.
  unfold Js.is_ident_start, Js.is_ident_part.
  intros [[->| ->]%orb_true_iff| ->]%orb_true_iff; by rewrite ?orb_true_r.
Qed.

Lemma trimEnd_no_space (s : string) :
  Js.all_code_units (λ c, negb (Js.is_space c)) s = true → Js.trimEnd s = s.
Proof.
  induction s as [|c s IH]; [done|]. cbn [Js.all_code_units Js.trimEnd].
  intros [Hc Hs]%andb_true_iff. rewrite (IH Hs).
  apply negb_true_iff in Hc. rewrite Hc. by destruct s.
Qed.

Lemma plain_identifier_units (t : string) :
  Js.identifier_pattern_test t = true →
  t ≠ EmptyString ∧ Js.all_code_units Js.is_ident_part t = true.
Proof.
  destruct t as [|c t]; [done|]. cbn [Js.identifier_pattern_test Js.all_code_units].
  intros [Hc Ht]%andb_true_iff. split; [done|]. by rewrite (ident_start_is_part c Hc).
Qed.

(** A text that matches the identifier pattern has no white space to trim. *)
Lemma plain_identifier_trim (t : string) :
  Js.identifier_pattern_test t = true → Js.trim t = t.
Proof.
  intros Ht. destruct (plain_identifier_units t Ht) as [Hne Hunits].
  assert (Js.all_code_units (λ c, negb (Js.is_space c)) t = true) as Hclean.
  { eapply all_code_units_impl; [|exact Hunits].
    intros c Hc. by rewrite (ident_part_not_space c Hc). }
  unfold Js.trim. destruct t as [|c t]; [done|].
  cbn [Js.all_code_units] in Hclean. apply andb_true_iff in Hclean as [Hc Hrest].
  cbn [Js.trimStart]. apply negb_true_iff in Hc. rewrite Hc.
  apply trimEnd_no_space. cbn [Js.all_code_units]. by rewrite Hc, Hrest.
Qed.

Lemma accepted_identifier_shape (identifier : string) (config : option IdentifierConfig) :
  id_valid (validateIdentifier identifier config) = true →
  validateIdentifier identifier config
  = {| id_valid := true; error := None; sanitized := Some (Js.trim identifier) |} ∧
  Js.identifier_pattern_test (Js.trim identifier) = true ∧
  Js.length (Js.trim identifier) ≤ req_maxLength (spread_identifier config) ∧
  (Js.toLowerCase (Js.trim identifier) ∉ SQL_KEYWORDS).
Proof.
  unfold validateIdentifier. rewrite trim_blank.
  case_bool_decide as Hblank; [done|].
  destruct (_ >? _) eqn:Hgt; [done|].
  destruct (Js.identifier_pattern_test (Js.trim identifier)) eqn:Hpattern; [|done].
  cbn [negb]. case_bool_decide as Hkeyword; [done|]. intros _.
  rewrite Z.gtb_ltb in Hgt. apply Z.ltb_ge in Hgt. done.
Qed.

Lemma plain_identifier_accepted (t : string) (config : option IdentifierConfig) :
  Js.identifier_pattern_test t = true →
  Js.length t ≤ req_maxLength (spread_identifier config) →
  Js.toLowerCase t ∉ SQL_KEYWORDS →
  validateIdentifier t config
  = {| id_valid := true; error := None; sanitized := Some t |}.
Proof.
  intros Hpattern Hlen Hkeyword. unfold validateIdentifier.
  rewrite trim_blank, (plain_identifier_trim _ Hpattern).
  case_bool_decide as Hblank; [by subst t|].
  destruct (_ >? _) eqn:Hgt; [apply Z.gtb_lt in Hgt; lia|].
  rewrite Hpattern. cbn [negb]. by case_bool_decide.
Qed.

(** X9: an accepted identifier comes back as a plain identifier: letters,
    digits and underscores after a letter or an underscore, no longer than
    [maxLength], no SQL keyword in any case, and with no error; validating
    what came back gives the same verdict again.  Conversely every plain
    identifier within the length limit that is no keyword is accepted as it
    is. *)
Theorem accepted_identifier_is_plain (identifier : string) (config : option IdentifierConfig) :
  (id_valid (validateIdentifier identifier config) = true →
   ∃ t,
     validateIdentifier identifier config
     = {| id_valid := true; error := None; sanitized := Some t |} ∧
     t = Js.trim identifier ∧
     Js.identifier_pattern_test t = true ∧
     Js.all_code_units Js.is_ident_part t = true ∧
     Js.length t ≤ req_maxLength (spread_identifier config) ∧
     (Js.toLowerCase t ∉ SQL_KEYWORDS) ∧
     validateIdentifier t config = validateIdentifier identifier config) ∧
  (Js.identifier_pattern_test identifier = true →
   Js.length identifier ≤ req_maxLength (spread_identifier config) →
   Js.toLowerCase identifier ∉ SQL_KEYWORDS →
   validateIdentifier identifier config
   = {| id_valid := true; error := None; sanitized := Some identifier |}).
Proof.
  split; [|apply plain_identifier_accepted].
  intros Hvalid.
  destruct (accepted_identifier_shape identifier config Hvalid) as (Hresult & Hp & Hl & Hk).
  exists (Js.trim identifier). split; [done|]. split; [done|]. split; [done|].
  split; [by apply plain_identifier_units|]. split; [done|]. split; [done|].
  rewrite Hresult. by apply plain_identifier_accepted.
Qed.

Lemma accepted_identifier_is_plain_witness :
  ∃ t,
    validateIdentifier " user_events " None
    = {| id_valid := true; error := None; sanitized := Some t |} ∧
    t = Js.trim " user_events " ∧
    Js.identifier_pattern_test t = true ∧
    Js.all_code_units Js.is_ident_part t = true ∧
    Js.length t ≤ req_maxLength (spread_identifier None) ∧
    (Js.toLowerCase t ∉ SQL_KEYWORDS) ∧
    validateIdentifier t None = validateIdentifier " user_events " None.
Proof.
  refine (proj1 (accepted_identifier_is_plain " user_events " None) _).
  vm_compute. reflexivity.
Defined.

Lemma validateNamespace_valid_iff (namespace : string) (config : option IdentifierConfig) :
  id_valid (validateNamespace namespace config) = true ↔
  id_valid (validateIdentifier namespace config) = true ∧
  (req_allowedNamespaces (spread_identifier config) = [] ∨
   (Js.toLowerCase namespace
      ∈ map Js.toLowerCase (req_allowedNamespaces (spread_identifier config)))).
Proof.
  unfold validateNamespace.
  destruct (id_valid (validateIdentifier namespace config)) eqn:Hid; cbn [negb].
  - destruct (req_allowedNamespaces (spread_identifier config)) as [|a allowed] eqn:Hallowed.
    + cbn. rewrite Hid. split; [by intros _; split; [|left]|done].
    + cbn [length Nat.ltb Nat.leb]. case_bool_decide as Hin; cbn [negb].
      * rewrite Hid. split; [by intros _; split; [|right]|done].
      * cbn [id_valid]. split; [done|]. by intros [_ [?|?]].
  - rewrite Hid. split; [done|]. by intros [? _].
Qed.

Lemma lower_letter_is_start (c : ascii) :
  Js.in_range 97 122 (Js.lower c) = true → Js.is_ident_start c = true.
Proof.
  assert (forallb (λ c, implb (Js.in_range 97 122 (Js.lower c)) (Js.is_ident_start c))
                  every_code_unit = true) as Hall by (vm_compute; reflexivity).
  pose proof (for_every_code_unit _ Hall c) as Hc. cbv beta in Hc.
  intros Hlower. by rewrite Hlower in Hc.
Qed.

Lemma toLowerCase_length (s : string) :
  String.length (Js.toLowerCase s) = String.length s.
Proof. induction s as [|c s IH]; [done|]. cbn. by rewrite IH. Qed.

Lemma lower_letters_plain (s : string) :
  s ≠ EmptyString →
  Js.all_code_units (Js.in_range 97 122) (Js.toLowerCase s) = true →
  Js.identifier_pattern_test s = true.
Proof.
  intros Hne Hall. destruct s as [|c s]; [done|].
  cbn [Js.toLowerCase Js.all_code_units] in Hall. apply andb_true_iff in Hall as [Hc Hs].
  cbn [Js.identifier_pattern_test]. rewrite (lower_letter_is_start c Hc). cbn [andb].
  clear Hne Hc. induction s as [|d s IH]; [done|].
  cbn [Js.toLowerCase Js.all_code_units] in *. apply andb_true_iff in Hs as [Hd Hs].
  by rewrite (ident_start_is_part d (lower_letter_is_start d Hd)), IH.
Qed.

Lemma validateNamespace_verdict (namespace : string) (config : option IdentifierConfig) :
  id_valid (validateNamespace namespace config) = true →
  validateNamespace namespace config = validateIdentifier namespace config.
Proof.
  unfold validateNamespace.
  destruct (id_valid (validateIdentifier namespace config)); cbn [negb]; [|done].
  destruct (0 <? _)%nat; [|done]. by case_bool_decide.
Qed.

(** X10: a namespace is accepted exactly when it is an acceptable identifier
    and, unless the allow-list is empty, its lower-cased text is the
    lower-cased text of an allowed namespace; an empty allow-list lets every
    acceptable identifier through.  Under the default configuration the
    accepted namespaces are exactly the spellings of "analytics" in any case.
    An accepted namespace gets the verdict of the identifier check. *)
Theorem validateNamespace_accepts (namespace : string) (config : option IdentifierConfig) :
  (id_valid (validateNamespace namespace config) = true ↔
   id_valid (validateIdentifier namespace config) = true ∧
   (req_allowedNamespaces (spread_identifier config) = [] ∨
    (Js.toLowerCase namespace
       ∈ map Js.toLowerCase (req_allowedNamespaces (spread_identifier config))))) ∧
  (id_valid (validateNamespace namespace config) = true →
   validateNamespace namespace config = validateIdentifier namespace config) ∧
  (id_valid (validateNamespace namespace None) = true ↔
   Js.toLowerCase namespace = "analytics").
Proof.
  split; [apply validateNamespace_valid_iff|]. split.
  - apply validateNamespace_verdict.
  - rewrite validateNamespace_valid_iff. cbn [spread_identifier req_allowedNamespaces
      DEFAULT_IDENTIFIER_CONFIG map]. split.
    + intros [_ [?|Hin]]; [done|]. by apply list_elem_of_singleton in Hin.
    + intros Hlower. split; [|right; rewrite Hlower; apply list_elem_of_here].
      assert (Js.identifier_pattern_test namespace = true) as Hplain.
      { apply lower_letters_plain; [by destruct namespace|]. by rewrite Hlower. }
      assert (String.length namespace = 9%nat) as Hlen.
      { by rewrite <- toLowerCase_length, Hlower. }
      unfold validateIdentifier. rewrite trim_blank, (plain_identifier_trim _ Hplain).
      rewrite bool_decide_eq_false_2 by (by destruct namespace).
      unfold Js.length. rewrite Hlen, Hplain, Hlower. reflexivity.
Qed.

(** ** Qualified names *)

Lemma startsWith_empty (s : string) : Js.startsWith s EmptyString = true.
Proof. by destruct s. Qed.

Lemma split_dot_cons (c : ascii) (s : string) :
  Js.split (String c s) "." =
    if bool_decide (c = "."%char) then EmptyString :: Js.split s "."
    else match Js.split s "." with
         | piece :: pieces => String c piece :: pieces
         | [] => [String c EmptyString]
         end.
Proof.
  unfold Js.split. cbn [Js.split_go Js.startsWith]. rewrite startsWith_empty, andb_true_r.
  case_bool_decide as Hc; case_bool_decide as Hd; try done; by subst.
Qed.

Lemma split_dot_length (s : string) : length (Js.split s ".") = S (dots s).
Proof.
  induction s as [|c s IH]; [done|]. rewrite split_dot_cons. cbn [dots].
  case_bool_decide; cbn [length].
  - by rewrite IH.
  - destruct (Js.split s ".") as [|piece pieces]; [done|]. cbn [length] in *. lia.
Qed.

Lemma split_dot_join (s : string) : Js.join (Js.split s ".") "." = s.
Proof.
  change (replace_all s "." "." = s). induction s as [|c s IH]; [done|].
  destruct (decide (c = "."%char)) as [->|Hc].
  - change (String "." s) with ("." +:+ s). by rewrite replace_all_match, IH.
  - rewrite replace_all_other, IH; [done..|].
    cbn [Js.startsWith]. case_bool_decide; [by subst c|done].
Qed.

(** X11: a qualified name is accepted only when it is a namespace and a table
    name around exactly one dot, the namespace passing the namespace check
    and the table name the identifier check; what comes back is the two
    trimmed parts, each a plain identifier, joined by a dot.  A name with no
    dot or with several is refused as malformed, whatever its parts are. *)
Theorem qualified_name_shape (qualifiedName : string) (config : option IdentifierConfig) :
  (id_valid (validateQualifiedTableName qualifiedName config) = true →
   ∃ namespace tableName,
     qualifiedName = namespace +:+ "." +:+ tableName ∧
     dots qualifiedName = 1%nat ∧
     id_valid (validateNamespace namespace config) = true ∧
     id_valid (validateIdentifier tableName config) = true ∧
     validateQualifiedTableName qualifiedName config
     = {| id_valid := true; error := None;
          sanitized := Some (Js.trim namespace +:+ "." +:+ Js.trim tableName) |} ∧
     Js.identifier_pattern_test (Js.trim namespace) = true ∧
     Js.identifier_pattern_test (Js.trim tableName) = true) ∧
  (dots qualifiedName ≠ 1%nat →
   validateQualifiedTableName qualifiedName config = malformed_qualified_name).
Proof.
  pose proof (split_dot_length qualifiedName) as Hlen.
  pose proof (split_dot_join qualifiedName) as Hjoin.
  unfold validateQualifiedTableName.
  destruct (Js.split qualifiedName ".") as [|ns [|table [|third more]]];
    cbn [length] in Hlen; (split; [|intros Hdots; first [done|lia]]); try done.
  destruct (id_valid (validateNamespace ns config)) eqn:Hns; cbn [negb]; [|done].
  destruct (id_valid (validateIdentifier table config)) eqn:Htable; cbn [negb]; [|done].
  intros _. exists ns, table.
  assert (validateNamespace ns config = validateIdentifier ns config) as Heq
    by (by apply validateNamespace_verdict).
  rewrite Heq in Hns |- *.
  destruct (accepted_identifier_shape ns config Hns) as (Hs1 & Hp1 & _).
  destruct (accepted_identifier_shape table config Htable) as (Hs2 & Hp2 & _).
  split; [by rewrite <- Hjoin|]. split; [lia|]. split; [done|]. split; [done|].
  rewrite Hs1, Hs2. done.
Qed.

(** ** Rows, cells and column names *)

Lemma mapM_Returned {A B} (f : A → Completion B) (xs : list A) (ys : list B) :
  mapM f xs = Returned ys ↔ Forall2 (λ x y, f x = Returned y) xs ys.
Proof.
  split.
  - revert ys. induction xs as [|x xs IH]; intros ys Heq.
    + cbn in Heq. injection Heq as <-. constructor.
    + cbn [mapM] in Heq. destruct (f x) as [y|e] eqn:Hx; [|done].
      cbn in Heq. destruct (mapM f xs) as [ys'|e]; [|done].
      cbn in Heq. injection Heq as <-. constructor; [done|by apply IH].
  - induction 1 as [|x y xs ys Hx _ IH]; [done|].
    cbn [mapM]. rewrite Hx. cbn. by rewrite IH.
Qed.

(** X12: in a query result every cell stands where its column stands: the
    result keeps the column names, has one row per response object and one cell
    per column, and the cell of a row under a column is the transform of the
    field of that name, [null] standing for an absent field (the column
    names being none of those inherited from [Object.prototype]). *)
Theorem cells_follow_columns `{Host} (names : list string)
    (data : list (list (string * Value))) (result : HttpQueryResult) :
  own_columns names →
  HttpQueryResult_new names data = Returned result →
  columnNames result = names ∧
  length (rows result) = length data ∧
  ∀ i row, data !! i = Some row →
    ∃ cells, rows result !! i = Some cells ∧ length cells = length names ∧
      ∀ j col, names !! j = Some col →
        ∃ v, cells !! j = Some v ∧
             transformValue (default VNull (get col row)) = Returned v.
Proof.
  unfold HttpQueryResult_new. intros _ Hnew.
  destruct (mapM _ data) as [rs|e] eqn:Hrows; [|done].
  cbn in Hnew. injection Hnew as <-. cbn [columnNames columns rows].
  apply mapM_Returned in Hrows.
  split; [done|]. split; [symmetry; by eapply Forall2_length|].
  intros i row Hi.
  destruct (Forall2_lookup_l _ _ _ _ _ Hrows Hi) as (cells & Hcells & Hrow).
  apply mapM_Returned in Hrow.
  exists cells. split; [done|]. split; [symmetry; by eapply Forall2_length|].
  intros j col Hj.
  destruct (Forall2_lookup_l _ _ _ _ _ Hrow Hj) as (v & Hv & Hcell).
  by exists v.
Qed.

Lemma cells_follow_columns_witness :
  columnNames {| columns := ["a"; "b"]; rows := [[VNumber 1; VNull]] |} = ["a"; "b"].
Proof.
  refine (proj1 (cells_follow_columns (H := sample_host) ["a"; "b"] [[("a", VNumber 1)]]
                   {| columns := ["a"; "b"]; rows := [[VNumber 1; VNull]] |} _ eq_refl)).
  apply (bool_decide_unpack _). vm_compute. exact I.
Defined.

(** X13: a response none of whose cells is a single-key [micros] or [days]
    object always yields a result, and its rows are the fields of each object
    in column order, unchanged, with [null] for the absent ones (the column
    names being none of those inherited from [Object.prototype]). *)
Theorem plain_rows_untouched `{Host} (names : list string)
    (data : list (list (string * Value))) :
  own_columns names →
  (∀ row col, row ∈ data → col ∈ names → plain_cell (default VNull (get col row))) →
  HttpQueryResult_new names data
  = Returned {| columns := names;
                rows := map (λ row, map (λ col, default VNull (get col row)) names) data |}.
Proof.
  intros _ Hplain. unfold HttpQueryResult_new.
  assert (mapM (λ row, mapM (λ col, transformValue (cell row col)) names) data
          = Returned (map (λ row, map (λ col, default VNull (get col row)) names) data))
    as ->; [|done].
  apply mapM_Returned, Forall2_fmap_r, Forall_Forall2_diag, Forall_forall.
  intros row Hrow. apply mapM_Returned, Forall2_fmap_r, Forall_Forall2_diag, Forall_forall.
  intros col Hcol.
  destruct (Hplain row col Hrow Hcol). by apply transformValue_other.
Qed.

Lemma plain_rows_untouched_witness :
  HttpQueryResult_new (H := sample_host) ["id"; "tags"]
    [[("tags", VArray [VObject [("micros", VString "1")]]); ("id", VNumber 7)]; []]
  = Returned {| columns := ["id"; "tags"];
                rows := [[VNumber 7; VArray [VObject [("micros", VString "1")]]];
                         [VNull; VNull]] |}.
Proof.
  refine (plain_rows_untouched (H := sample_host) ["id"; "tags"]
            [[("tags", VArray [VObject [("micros", VString "1")]]); ("id", VNumber 7)]; []] _ _).
  { apply (bool_decide_unpack _). vm_compute. exact I. }
  intros row col Hrow Hcol.
  repeat (apply elem_of_cons in Hrow as [->|Hrow]);
    repeat (apply elem_of_cons in Hcol as [->|Hcol]);
    try (by apply elem_of_nil in Hrow); try (by apply elem_of_nil in Hcol);
    split; intros [x Hx]; discriminate Hx.
Defined.

Lemma earlier_absent (names : list string) (i : nat) (name : string) :
  NoDup names → names !! i = Some name → earlier names i name = 0.
Proof.
  intros Hnodup Hi. unfold earlier.
  destruct (filter (λ n, n = name) (take i names)) as [|n rest] eqn:Hfilter; [done|].
  assert (n ∈ filter (λ n, n = name) (take i names)) as Hin
    by (rewrite Hfilter; apply list_elem_of_here).
  apply list_elem_of_filter in Hin as [-> Hin].
  apply elem_of_take in Hin as (j & Hj & Hlt).
  pose proof (NoDup_lookup _ _ _ _ Hnodup Hi Hj). lia.
Qed.

(** X14: column names that are already pairwise distinct are handed to the
    caller unchanged, and in every case the caller gets as many names as
    there are columns. *)
Theorem distinct_names_unchanged (names : list string) :
  length (deduplicatedColumnNames (result_of names)) = length names ∧
  (NoDup names → deduplicatedColumnNames (result_of names) = names).
Proof.
  unfold deduplicatedColumnNames. cbn [columns result_of].
  split; [apply dedup_names_length|].
  intros Hnodup. apply list_eq. intros i.
  destruct (names !! i) as [name|] eqn:Hi.
  - rewrite (dedup_names_lookup ∅ names i name Hi), lookup_empty.
    cbn [default from_option id]. by rewrite (earlier_absent names i name Hnodup Hi).
  - apply lookup_ge_None. rewrite dedup_names_length. by apply lookup_ge_None.
Qed.

Lemma distinct_names_unchanged_witness :
  deduplicatedColumnNames (result_of ["id"; "name"]) = ["id"; "name"].
Proof.
  refine (proj2 (distinct_names_unchanged ["id"; "name"]) _).
  apply (bool_decide_unpack _). vm_compute. exact I.
Defined.

(** X15: a transformed cell is never a single-key [micros] or [days] object,
    so transforming it again changes nothing. *)
Theorem transformed_cell_is_plain `{Host} (value result : Value) :
  transformValue value = Returned result →
  plain_cell result ∧ transformValue result = Returned result.
Proof.
  intros Hresult.
  assert (plain_cell result) as Hplain.
  { unfold transformValue in Hresult.
    destruct (truthy value && bool_decide (typeof value = "object") && negb (isArray value))
      eqn:Hobject.
    - destruct (has "micros" value && (length (keys value) =? 1)%nat) eqn:Hmicros.
      { destruct (BigInt _); [|done]. cbn in Hresult. injection Hresult as <-.
        split; intros [x Hx]; discriminate Hx. }
      destruct (has "days" value && (length (keys value) =? 1)%nat) eqn:Hdays.
      { destruct (Number _); [|done]. cbn in Hresult. injection Hresult as <-.
        split; intros [x Hx]; discriminate Hx. }
      cbn in Hresult. injection Hresult as <-.
      split; intros [x ->]; [by vm_compute in Hmicros|by vm_compute in Hdays].
    - cbn in Hresult. injection Hresult as <-.
      split; intros [x ->]; by vm_compute in Hobject. }
  split; [done|]. destruct Hplain. by apply transformValue_other.
Qed.

Lemma transformed_cell_is_plain_witness :
  plain_cell (VDate (Some 86400000)) ∧
  transformValue (H := sample_host) (VDate (Some 86400000)) = Returned (VDate (Some 86400000)).
Proof.
  exact (transformed_cell_is_plain (H := sample_host)
           (VObject [("days", VNumber 1)]) (VDate (Some 86400000)) eq_refl).
Defined.

(** ** Literals *)

Lemma append_empty_r (s : string) : s +:+ EmptyString = s.
Proof. induction s as [|c s IH]; [done|]. by rewrite append_cons, IH. Qed.

Section LiteralFacts.
Context `{Host}.

Lemma read_quoted_double_quotes (s rest : string) :
  Js.first rest ≠ Some "'"%char →
  read_quoted (double_quotes s +:+ String "'" rest) = Some (s, rest).
Proof.
  intros Hrest. induction s as [|c s IH].
  - cbn [double_quotes]. rewrite append_empty_l. cbn [read_quoted].
    rewrite bool_decide_eq_true_2 by done.
    destruct rest as [|d rest]; [done|]. case_bool_decide; [by subst d|done].
  - cbn [double_quotes]. case_bool_decide as Hc.
    + subst c. rewrite 2 append_cons. cbn [read_quoted].
      rewrite !bool_decide_eq_true_2 by done. by rewrite IH.
    + rewrite append_cons. cbn [read_quoted].
      rewrite bool_decide_eq_false_2 by done. by rewrite IH.
Qed.

Lemma read_literal_quoted (s rest : string) :
  Js.first rest ≠ Some "'"%char →
  read_literal (("'" +:+ double_quotes s +:+ "'") +:+ rest) = Some (s, rest).
Proof.
  intros Hrest.
  rewrite append_cons, append_empty_l, append_cons. cbn [read_literal].
  rewrite bool_decide_eq_true_2 by done.
  rewrite append_assoc, append_cons, append_empty_l.
  by apply read_quoted_double_quotes.
Qed.

(** X16: the literal made for a string is read back as that very string:
    whatever the string holds (quotes included), reading the literal as a
    single-quoted SQL string ends at its closing quote and gives the string
    back, provided the text after the literal does not start with a quote.
    The same holds for the JSON text of a keyed object, before the cast. *)
Theorem string_literal_reads_back (s rest : string) :
  Js.first rest ≠ Some "'"%char →
  (∃ literal, formatValue (VString s) = Returned literal ∧
              read_literal (literal +:+ rest) = Some (s, rest)) ∧
  (∀ fields json, JSON_stringify (VObject fields) = Returned json →
     ∃ literal, formatValue (VObject fields) = Returned (literal +:+ "::JSON") ∧
                read_literal (literal +:+ "::JSON" +:+ rest) = Some (json, "::JSON" +:+ rest)).
Proof.
  intros Hrest. split.
  - exists ("'" +:+ double_quotes s +:+ "'"). split; [reflexivity|].
    by apply read_literal_quoted.
  - intros fields json Hjson. exists ("'" +:+ double_quotes json +:+ "'"). split.
    + cbn [formatValue]. rewrite Hjson. cbn. f_equal.
      by rewrite !append_cons, !append_empty_l, !append_assoc.
    + by apply (read_literal_quoted json ("::JSON" +:+ rest)).
Qed.

Lemma unhex_hex_byte (b : Byte.byte) (rest : string) :
  unhex (hex_byte b +:+ rest) = (λ bs, b :: bs) <$> unhex rest.
Proof. destruct b; reflexivity. Qed.

Lemma join_no_separator (piece : string) (pieces : list string) :
  Js.join (piece :: pieces) EmptyString = piece +:+ Js.join pieces EmptyString.
Proof. destruct pieces; cbn [Js.join]; [by rewrite append_empty_r|done]. Qed.

Lemma unhex_hex (bytes : list Byte.byte) :
  unhex (Js.join (map hex_byte bytes) EmptyString) = Some bytes ∧
  String.length (Js.join (map hex_byte bytes) EmptyString) = (2 * length bytes)%nat.
Proof.
  induction bytes as [|b bytes [IH1 IH2]]; [done|].
  cbn [map]. rewrite join_no_separator, unhex_hex_byte, IH1, append_length, IH2.
  split; [done|]. cbn [length]. unfold hex_byte. cbn [String.length]. lia.
Qed.

(** X17: the literal made for a byte array is the prefix ['\x], two
    lower-case hexadecimal digits per byte and the suffix ['::BLOB]; reading
    the digits back gives the bytes. *)
Theorem blob_literal_reads_back (bytes : list Byte.byte) :
  ∃ hex, formatValue (VBytes bytes) = Returned ("'\x" +:+ hex +:+ "'::BLOB") ∧
         String.length hex = (2 * length bytes)%nat ∧
         unhex hex = Some bytes.
Proof.
  exists (Js.join (map hex_byte bytes) EmptyString).
  split; [reflexivity|]. destruct (unhex_hex bytes). done.
Qed.

Lemma substitute_from_literals (i : nat) (params others : list Value) (result : string) :
  Forall2 (λ a b, formatValue a = formatValue b) params others →
  substitute_from i params result = substitute_from i others result.
Proof.
  intros Hsame. revert i result.
  induction Hsame as [|a b params others Hab _ IH]; intros i result; [done|].
  cbn [substitute_from]. rewrite Hab. destruct (formatValue b); [|done]. cbn. apply IH.
Qed.

(** X18: a one-element array holding a number is bound exactly as the number
    itself, wherever it stands among the parameters and whatever the query
    is. *)
Theorem numeric_singleton_binds_as_number (query : string) (before after : list Value) (n : Z) :
  substituteParams query (before ++ VArray [VNumber n] :: after)
  = substituteParams query (before ++ VNumber n :: after).
Proof.
  unfold substituteParams. rewrite !length_app. cbn [length].
  destruct (_ =? 0)%nat; [done|].
  apply substitute_from_literals, Forall2_app; [by apply Forall_Forall2_diag, Forall_forall|].
  constructor; [done|]. by apply Forall_Forall2_diag, Forall_forall.
Qed.

End LiteralFacts.

(** ** The connection *)

Section ConnectionFacts.
Context `{Host}.
Variable global_fetch : Driver.Fetch.

Lemma foldl_snoc {A} (l init : list A) :
  foldl (λ out row, out ++ [row]) init l = init ++ l.
Proof.
  revert init. induction l as [|row l IH]; intros init; cbn [foldl].
  - by rewrite app_nil_r.
  - by rewrite IH, <- app_assoc.
Qed.

Lemma yielded_rows (r : Driver.HttpStreamResult) : Driver.yielded r = Driver.stream_rows r.
Proof. unfold Driver.yielded. by rewrite foldl_snoc. Qed.

(** X19: [stream] and [run] agree: for the same connection, query and
    parameters either both fail with the same error, or both return, and then
    the rows the stream yields, in order, are the rows of the [run] result
    and the column names are the same. *)
Theorem stream_agrees_with_run
    (this : Driver.HttpDuckDBConnection) (query : string) (params : option (list Value)) :
  match Driver.run global_fetch this query params,
        Driver.stream global_fetch this query params with
  | Returned result, Returned streamed =>
      Driver.yielded streamed = rows result ∧
      Driver.stream_columnNames streamed = columnNames result
  | Raised error, Raised error' => error = error'
  | _, _ => False
  end.
Proof.
  unfold Driver.run, Driver.executeQuery, Driver.stream.
  destruct (Driver.fetchQuery global_fetch this query (default [] params))
    as [response|error]; [|done].
  cbn. unfold HttpQueryResult_new, Driver.HttpStreamResult_new.
  destruct (mapM _ _) as [rs|error]; [|done].
  cbn. split; [exact (foldl_snoc rs [])|done].
Qed.

(** X20: a statement made by [prepare] and used without being destroyed runs
    exactly as [run] with the values of the last [bind] (none when nothing
    was bound): same request, same result, same error. *)
Theorem prepared_runs_like_run
    (this : Driver.HttpDuckDBConnection) (query : string) (cs : list call) :
  DestroySync ∉ cs →
  HttpPreparedStatement.run (after_all (Driver.prepare global_fetch this query) cs)
  = Driver.run global_fetch this query (Some (last_bound [] cs)).
Proof.
  intros Hcs.
  destruct (alive_until_destroyed (Driver.prepare global_fetch this query) cs eq_refl Hcs)
    as (Hd & Hq & He & Hb).
  unfold HttpPreparedStatement.run. rewrite Hd, Hq, He, Hb. done.
Qed.

Lemma fetchQuery_unfold (this : Driver.HttpDuckDBConnection) (query : string) (params : list Value) :
  Driver.fetchQuery global_fetch this query params
  = (final ← substituteParams query params;
     Driver.try_catch
       (body ← JSON_stringify (VObject [("query", VString (Driver.fix_limit_offset final))]);
        response ← default global_fetch (Driver.customFetch this)
                     (Driver.this_endpoint this +:+ "/query") (request_of this body);
        if negb (Driver.ok response) then
          errorBody ← Driver.text response;
          Raised (JsError "Error"
                    ("HTTP " +:+ Js.num (Driver.status response) +:+ ": "
                       +:+ (if negb (Js.falsy errorBody) then errorBody
                            else Driver.statusText response)))
        else
          result ← Driver.json response;
          if negb (Driver.success result) then
            Raised (JsError "Error"
                      (default "Query execution failed" (Driver.response_error result)))
          else mret result)
       (λ error,
          match error with
          | JsError name _ =>
              if bool_decide (name = "AbortError") then Raised (timeout_error this)
              else Raised error
          | ThrownValue _ => Raised error
          end)).
Proof. reflexivity. Qed.

(** X21: when a query returns.  [run] returns a result exactly when the
    parameters could be written into the query, the request (a POST to
    [<endpoint>/query] whose body is the JSON text of the query after both
    passes) was answered with an [ok] response whose JSON envelope has
    [success] set, and the envelope's rows could be converted; the result is
    the one built from the envelope's columns and rows. *)
Theorem run_returns_iff
    (this : Driver.HttpDuckDBConnection) (query : string) (params : option (list Value))
    (result : HttpQueryResult) :
  Driver.run global_fetch this query params = Returned result ↔
  ∃ final body response envelope,
    substituteParams query (default [] params) = Returned final ∧
    JSON_stringify (VObject [("query", VString (Driver.fix_limit_offset final))])
      = Returned body ∧
    default global_fetch (Driver.customFetch this)
      (Driver.this_endpoint this +:+ "/query") (request_of this body) = Returned response ∧
    Driver.ok response = true ∧
    Driver.json response = Returned envelope ∧
    Driver.success envelope = true ∧
    HttpQueryResult_new (default [] (Driver.response_columns envelope))
                        (default [] (Driver.data envelope)) = Returned result.
Proof.
  unfold Driver.run, Driver.executeQuery. rewrite fetchQuery_unfold. split.
  - destruct (substituteParams query (default [] params)) as [final|?]; [|done]. cbn.
    destruct (JSON_stringify _) as [body|?] eqn:Hbody; cbn.
    + destruct (default global_fetch _ _ _) as [response|?] eqn:Hfetch; cbn.
      * destruct (Driver.ok response) eqn:Hok; cbn.
        -- destruct (Driver.json response) as [envelope|?] eqn:Hjson; cbn.
           ++ destruct (Driver.success envelope) eqn:Hsuccess; cbn.
              ** intros Hresult. by exists final, body, response, envelope.
              ** done.
           ++ destruct e as [name ?|?]; [|done]. by case_bool_decide.
        -- destruct (Driver.text response) as [errorBody|e]; cbn; [done|].
           destruct e as [name ?|?]; [|done]. by case_bool_decide.
      * destruct e as [name ?|?]; [|done]. by case_bool_decide.
    + destruct e as [name ?|?]; [|done]. by case_bool_decide.
  - intros (final & body & response & envelope & -> & Hbody & Hfetch & Hok & Hjson & Hs & Hr).
    cbn. rewrite Hbody. cbn. rewrite Hfetch. cbn. rewrite Hok. cbn.
    rewrite Hjson. cbn. by rewrite Hs.
Qed.

(** X22: a timeout never surfaces as an abort.  Once the parameters are
    written into the query, [fetchQuery] never fails with an error named
    [AbortError]; when the transport is aborted, the failure is the error
    [Query timeout after <timeout>ms]. *)
Theorem abort_becomes_timeout
    (this : Driver.HttpDuckDBConnection) (query : string) (params : list Value)
    (final body : string) :
  substituteParams query params = Returned final →
  JSON_stringify (VObject [("query", VString (Driver.fix_limit_offset final))])
    = Returned body →
  (∀ message, Driver.fetchQuery global_fetch this query params
              ≠ Raised (JsError "AbortError" message)) ∧
  (∀ message,
     default global_fetch (Driver.customFetch this)
       (Driver.this_endpoint this +:+ "/query") (request_of this body)
     = Raised (JsError "AbortError" message) →
     Driver.fetchQuery global_fetch this query params = Raised (timeout_error this)).
Proof.
  intros Hfinal Hbody. rewrite fetchQuery_unfold, Hfinal. cbn. rewrite Hbody. cbn.
  split.
  - intros message.
    destruct (default global_fetch _ _ _) as [response|e]; cbn.
    + destruct (Driver.ok response); cbn.
      * destruct (Driver.json response) as [envelope|e]; cbn.
        -- by destruct (Driver.success envelope).
        -- destruct e as [name ?|?]; [|done]. case_bool_decide; [done|congruence].
      * destruct (Driver.text response) as [errorBody|e]; cbn; [done|].
        destruct e as [name ?|?]; [|done]. case_bool_decide; [done|congruence].
    + destruct e as [name ?|?]; [|done]. case_bool_decide; [done|congruence].
  - intros message ->. done.
Qed.

(** X23: a parameter that cannot be written fails the call before anything
    is sent: the error of the substitution is the error of [run], of
    [stream] and of a prepared statement's [run], whatever the transport
    would answer. *)
Theorem bad_parameter_sends_nothing
    (other_fetch : Driver.Fetch) (this : Driver.HttpDuckDBConnection)
    (query : string) (params : list Value) (error : Thrown) :
  substituteParams query params = Raised error →
  Driver.run global_fetch this query (Some params) = Raised error ∧
  Driver.stream global_fetch this query (Some params) = Raised error ∧
  (∀ statement, bind (Driver.prepare global_fetch this query) params = Returned statement →
                HttpPreparedStatement.run statement = Raised error) ∧
  Driver.run other_fetch this query (Some params)
  = Driver.run global_fetch this query (Some params).
Proof.
  intros Herror.
  unfold Driver.run, Driver.stream, Driver.executeQuery.
  change (default [] (Some params)) with params.
  rewrite !fetchQuery_unfold, Herror.
  split; [done|]. split; [done|]. split; [|unfold Driver.fetchQuery; by rewrite Herror].
  intros statement [= <-].
  change (Driver.executeQuery global_fetch this query params = Raised error).
  unfold Driver.executeQuery. rewrite fetchQuery_unfold. by rewrite Herror.
Qed.

End ConnectionFacts.

Lemma strip_trailing_slash_append (e : string) :
  Driver.strip_trailing_slash (e +:+ "/") = e.
Proof.
  induction e as [|c e IH]; [done|].
  rewrite append_cons. cbn [Driver.strip_trailing_slash].
  destruct (e +:+ "/") eqn:He; [by destruct e|]. by rewrite IH.
Qed.

Lemma strip_trailing_slash_keep (e : string) :
  last_code_unit e ≠ Some "/"%char → Driver.strip_trailing_slash e = e.
Proof.
  induction e as [|c e IH]; [done|]. intros Hlast.
  cbn [Driver.strip_trailing_slash]. destruct e as [|d e].
  - case_bool_decide; [by subst c|done].
  - by rewrite IH.
Qed.

(** X24: the endpoint is stored without its final slash, so an endpoint
    written with or without it gives the same connection and the same
    request address; only one slash is removed, and the timeout is 30000 ms
    unless one is given. *)
Theorem endpoint_normalised
    (e : string) (token : option string) (timeout : option Z) (fetch : option Driver.Fetch) :
  Driver.this_endpoint (connect (e +:+ "/") token timeout fetch) = e ∧
  (last_code_unit e ≠ Some "/"%char →
   connect e token timeout fetch = connect (e +:+ "/") token timeout fetch) ∧
  Driver.this_timeout (connect e token timeout fetch) = default 30000 timeout.
Proof.
  split; [apply strip_trailing_slash_append|]. split; [|done].
  intros Hlast. unfold connect, Driver.HttpDuckDBConnection_new. cbn.
  by rewrite strip_trailing_slash_append, strip_trailing_slash_keep.
Qed.

(** ** The second pass of [fetchQuery] over the query text *)

Lemma all_code_units_append (p : ascii → bool) (s t : string) :
  Js.all_code_units p (s +:+ t) = Js.all_code_units p s && Js.all_code_units p t.
Proof.
  induction s as [|c s IH]; [done|].
  rewrite append_cons. cbn [Js.all_code_units]. by rewrite IH, andb_assoc.
Qed.

Lemma toLowerCase_append (s t : string) :
  Js.toLowerCase (s +:+ t) = Js.toLowerCase s +:+ Js.toLowerCase t.
Proof.
  induction s as [|c s IH]; [done|].
  rewrite append_cons. cbn [Js.toLowerCase]. by rewrite IH, append_cons.
Qed.

Lemma char_matches_i_lower (p c : ascii) :
  Js.in_range 97 122 p = true → Js.char_matches_i p c = bool_decide (Js.lower c = p).
Proof.
  intros Hp.
  assert (forallb (λ p, forallb (λ c,
            implb (Js.in_range 97 122 p)
                  (eqb (Js.char_matches_i p c) (bool_decide (Js.lower c = p))))
            every_code_unit) every_code_unit = true) as Hall.
  { vm_compute. reflexivity. }
  pose proof (for_every_code_unit _ (for_every_code_unit _ Hall p) c) as Hpc.
  cbv beta in Hpc. rewrite Hp in Hpc. by apply eqb_prop in Hpc.
Qed.

Lemma lower_letter_unit (c : ascii) :
  Js.in_range 97 122 (Js.lower c) = true →
  Js.is_word c = true ∧ Js.is_space c = false ∧ c ≠ "["%char.
Proof.
  intros Hc.
  assert (forallb (λ c, implb (Js.in_range 97 122 (Js.lower c))
            (Js.is_word c && negb (Js.is_space c) && negb (bool_decide (c = "["%char))))
            every_code_unit = true) as Hall.
  { vm_compute. reflexivity. }
  pose proof (for_every_code_unit _ Hall c) as Hpc. cbv beta in Hpc.
  rewrite Hc in Hpc. cbn [implb] in Hpc.
  apply andb_true_iff in Hpc as [Hpc Hb]. apply andb_true_iff in Hpc as [Hw Hs].
  apply negb_true_iff in Hs. apply negb_true_iff in Hb.
  split; [done|]. split; [done|]. by apply bool_decide_eq_false_1 in Hb.
Qed.

Lemma space_not_bracket (c : ascii) : Js.is_space c = true → c ≠ "["%char.
Proof. by intros Hc ->. Qed.

Lemma digit_not_bracket (c : ascii) : Driver.is_digit c = true → c ≠ "]"%char.
Proof. by intros Hc ->. Qed.

Lemma capture_literal_i_elim (pat : string) :
  is_lower_word pat →
  ∀ s m r, Driver.capture_literal_i pat s = Some (m, r) →
           s = m +:+ r ∧ Js.toLowerCase m = pat.
Proof.
  induction pat as [|p pat IH]; intros Hpat s m r Hc.
  - cbn in Hc. by injection Hc as <- <-.
  - apply andb_true_iff in Hpat as [Hp Hpat].
    destruct s as [|c s]; [done|]. cbn [Driver.capture_literal_i] in Hc.
    destruct (Js.char_matches_i p c) eqn:Hm; [|done].
    destruct (Driver.capture_literal_i pat s) as [[m' r']|] eqn:Hrec; [|done].
    cbn in Hc. injection Hc as <- <-.
    apply (IH Hpat) in Hrec as [-> Hlow].
    rewrite char_matches_i_lower in Hm by done. apply bool_decide_eq_true_1 in Hm.
    split; [done|]. cbn [Js.toLowerCase]. by rewrite Hlow, Hm.
Qed.

Lemma capture_literal_i_intro (pat : string) :
  is_lower_word pat →
  ∀ m r, Js.toLowerCase m = pat → Driver.capture_literal_i pat (m +:+ r) = Some (m, r).
Proof.
  induction pat as [|p pat IH]; intros Hpat m r Hm.
  - by destruct m.
  - apply andb_true_iff in Hpat as [Hp Hpat].
    destruct m as [|c m]; [done|]. cbn [Js.toLowerCase] in Hm. injection Hm as Hc Hm.
    rewrite append_cons. cbn [Driver.capture_literal_i].
    rewrite char_matches_i_lower, bool_decide_eq_true_2 by done.
    by rewrite (IH Hpat m r Hm).
Qed.

Lemma capture_while_elim (p : ascii → bool) (s : string) :
  s = fst (Driver.capture_while p s) +:+ snd (Driver.capture_while p s) ∧
  Js.all_code_units p (fst (Driver.capture_while p s)) = true.
Proof.
  induction s as [|c s [IH1 IH2]]; [done|]. cbn [Driver.capture_while].
  destruct (p c) eqn:Hc; [|done]. cbn [fst snd Js.all_code_units].
  rewrite append_cons, <- IH1, Hc, IH2. done.
Qed.

Lemma capture_while_intro (p : ascii → bool) (m r : string) :
  Js.all_code_units p m = true →
  (∀ c, Js.first r = Some c → p c = false) →
  Driver.capture_while p (m +:+ r) = (m, r).
Proof.
  intros Hm Hr. induction m as [|c m IH].
  - rewrite append_empty_l. destruct r as [|c r]; [done|]. cbn [Driver.capture_while].
    by rewrite (Hr c eq_refl).
  - apply andb_true_iff in Hm as [Hc Hm]. rewrite append_cons. cbn [Driver.capture_while].
    by rewrite Hc, (IH Hm).
Qed.

Lemma is_empty_false (s : string) : Driver.is_empty s = false ↔ s ≠ EmptyString.
Proof. by destruct s. Qed.

Lemma limit_branch_intro (keyword k ws ds post : string) :
  is_lower_word keyword → Js.toLowerCase k = keyword →
  ws ≠ EmptyString → all_space ws → ds ≠ EmptyString → all_digits ds →
  Driver.limit_branch keyword (k +:+ ws +:+ "[" +:+ ds +:+ "]" +:+ post)
  = Some (k, ds, post).
Proof.
  intros Hkw Hk Hws Hspace Hds Hdigits. unfold Driver.limit_branch.
  rewrite (capture_literal_i_intro keyword Hkw k _ Hk).
  rewrite (capture_while_intro Js.is_space ws _ Hspace) by (by intros c [= <-]).
  cbn [fst snd]. apply is_empty_false in Hws as ->.
  rewrite (append_cons "[" EmptyString), append_empty_l.
  rewrite bool_decide_eq_true_2 by done.
  rewrite (capture_while_intro Driver.is_digit ds _ Hdigits) by (by intros c [= <-]).
  cbn [fst snd]. apply is_empty_false in Hds as ->.
  rewrite (append_cons "]" EmptyString), append_empty_l.
  by rewrite bool_decide_eq_true_2.
Qed.

Lemma limit_branch_elim (keyword s k ds after : string) :
  is_lower_word keyword →
  Driver.limit_branch keyword s = Some (k, ds, after) →
  ∃ ws, s = k +:+ ws +:+ "[" +:+ ds +:+ "]" +:+ after ∧
        Js.toLowerCase k = keyword ∧ ws ≠ EmptyString ∧ all_space ws ∧
        ds ≠ EmptyString ∧ all_digits ds.
Proof.
  intros Hkw. unfold Driver.limit_branch.
  destruct (Driver.capture_literal_i keyword s) as [[kw after_kw]|] eqn:Hcap; [|done].
  apply (capture_literal_i_elim keyword Hkw) in Hcap as [-> Hlow].
  destruct (capture_while_elim Js.is_space after_kw) as [Hsplit Hspace].
  destruct (Driver.capture_while Js.is_space after_kw) as [ws rest]. cbn [fst snd] in *.
  destruct (Driver.is_empty ws) eqn:Hws; [done|]. apply is_empty_false in Hws.
  destruct rest as [|c after_open]; [done|].
  case_bool_decide as Hc; [subst c|done].
  destruct (capture_while_elim Driver.is_digit after_open) as [Hsplit' Hdigits].
  destruct (Driver.capture_while Driver.is_digit after_open) as [digits rest].
  cbn [fst snd] in *.
  destruct (Driver.is_empty digits) eqn:Hds; [done|]. apply is_empty_false in Hds.
  destruct rest as [|d after']; [done|].
  case_bool_decide as Hd; [subst d|done].
  intros [= <- <- <-]. exists ws. by rewrite Hsplit, Hsplit'.
Qed.

Lemma bracket_free_append (s t : string) :
  bracket_free (s +:+ t) ↔ bracket_free s ∧ bracket_free t.
Proof. unfold bracket_free. by rewrite all_code_units_append, andb_true_iff. Qed.

Lemma bracket_free_open (s : string) : ¬ bracket_free (String "[" s).
Proof. unfold bracket_free. cbn. done. Qed.

Lemma limit_branch_bracket (keyword s : string) (m : string * string * string) :
  is_lower_word keyword → Driver.limit_branch keyword s = Some m → ¬ bracket_free s.
Proof.
  intros Hkw Hm Hfree. destruct m as [[k ds] after].
  apply (limit_branch_elim _ _ _ _ _ Hkw) in Hm as (ws & -> & _).
  apply bracket_free_append in Hfree as [_ Hfree].
  apply bracket_free_append in Hfree as [_ Hfree].
  by apply bracket_free_open in Hfree.
Qed.

Lemma limit_offset_here_bracket (prev : option ascii) (s : string) :
  bracket_free s → Driver.limit_offset_here prev s = None.
Proof.
  intros Hfree. unfold Driver.limit_offset_here.
  destruct (Js.word_boundary prev s); [|done].
  destruct (Driver.limit_branch "limit" s) eqn:Hl.
  { by destruct (limit_branch_bracket "limit" s _ eq_refl Hl). }
  destruct (Driver.limit_branch "offset" s) eqn:Ho; [|done].
  by destruct (limit_branch_bracket "offset" s _ eq_refl Ho).
Qed.

Lemma fix_go_bracket_free (s : string) (prev : option ascii) :
  bracket_free s → Driver.fix_go prev 0 s = s.
Proof.
  revert prev. induction s as [|c s IH]; intros prev Hfree; [done|].
  cbn [Driver.fix_go]. rewrite (limit_offset_here_bracket prev _ Hfree).
  apply andb_true_iff in Hfree as [_ Hfree]. by rewrite IH.
Qed.

(** X25: the second pass leaves alone every query text without an opening
    square bracket: the text sent is then the text after parameter
    substitution. *)
Theorem fix_limit_offset_bracket_free (query : string) :
  bracket_free query → Driver.fix_limit_offset query = query.
Proof. apply fix_go_bracket_free. Qed.

Lemma fix_limit_offset_bracket_free_witness :
  Driver.fix_limit_offset "select * from t limit 25 offset 10"
  = "select * from t limit 25 offset 10".
Proof.
  apply (fix_limit_offset_bracket_free "select * from t limit 25 offset 10").
  vm_compute. reflexivity.
Defined.

Lemma previous_cons (prev : option ascii) (c : ascii) (m : string) :
  previous prev (String c m) = previous (Some c) m.
Proof.
  unfold previous. destruct m as [|d m]; [done|].
  change (last_code_unit (String c (String d m))) with (last_code_unit (String d m)).
  destruct (last_code_unit (String d m)) eqn:Hlast; [done|].
  by apply last_code_unit_None in Hlast.
Qed.

Lemma fix_go_skip (m post : string) (prev : option ascii) :
  Driver.fix_go prev (String.length m) (m +:+ post)
  = Driver.fix_go (previous prev m) 0 post.
Proof.
  revert prev. induction m as [|c m IH]; intros prev; [done|].
  rewrite append_cons, previous_cons. cbn [String.length Driver.fix_go]. apply IH.
Qed.

Lemma paging_keyword_cons (k : string) :
  is_paging_keyword k →
  ∃ c k', k = String c k' ∧ Js.is_word c = true ∧
          (String.length k = 5 ∨ String.length k = 6)%nat ∧
          bracket_free k ∧ (∀ u, last_code_unit k = Some u → Js.is_space u = false).
Proof.
  intros Hk.
  assert (is_lower_word (Js.toLowerCase k)) as Hlow by (by destruct Hk as [-> | ->]).
  assert (∀ s, is_lower_word (Js.toLowerCase s) →
               bracket_free s ∧ ∀ u, last_code_unit s = Some u → Js.is_space u = false)
    as Hunits.
  { induction s as [|c s IH]; [done|]. cbn [Js.toLowerCase]. intros Hs.
    apply andb_true_iff in Hs as [Hc Hs].
    destruct (lower_letter_unit c Hc) as (_ & Hspace & Hbracket).
    destruct (IH Hs) as [Hfree Hlast]. split.
    - unfold bracket_free. cbn [Js.all_code_units].
      rewrite bool_decide_eq_false_2 by done. exact Hfree.
    - intros u. cbn [last_code_unit]. destruct s; [by intros [= <-]|apply Hlast]. }
  destruct (Hunits k Hlow) as [Hfree Hlast].
  destruct k as [|c k']; [by destruct Hk|].
  exists c, k'. split; [done|]. split.
  { apply andb_true_iff in Hlow as [Hc _]. by destruct (lower_letter_unit c Hc). }
  split; [|done].
  rewrite <- (toLowerCase_length (String c k')). by destruct Hk as [-> | ->]; [left|right].
Qed.

Lemma limit_offset_here_match (prev : option ascii) (k ws ds post : string) :
  Js.is_word_opt prev = false → is_paging_keyword k →
  ws ≠ EmptyString → all_space ws → ds ≠ EmptyString → all_digits ds →
  Driver.limit_offset_here prev (k +:+ ws +:+ "[" +:+ ds +:+ "]" +:+ post)
  = Some (k, ds, post).
Proof.
  intros Hprev Hk Hws Hspace Hds Hdigits. unfold Driver.limit_offset_here.
  destruct (paging_keyword_cons k Hk) as (c & k' & -> & Hc & _).
  unfold Js.word_boundary. rewrite Hprev, append_cons. cbn [Js.first Js.is_word_opt].
  rewrite Hc. cbn [xorb]. rewrite <- append_cons.
  destruct Hk as [Hk|Hk].
  - by rewrite (limit_branch_intro "limit" _ ws ds post eq_refl Hk).
  - rewrite (limit_branch_intro "offset" _ ws ds post eq_refl Hk) by done.
    destruct (Driver.limit_branch "limit" _) as [[[k0 ds0] after0]|] eqn:Hl; [|done].
    apply (limit_branch_elim "limit" _ _ _ _ eq_refl) in Hl as (ws0 & Heq & Hk0 & _).
    destruct k0 as [|c0 k0]; [done|]. rewrite !append_cons in Heq.
    injection Heq as <- _. cbn [Js.toLowerCase] in Hk, Hk0. congruence.
Qed.

Lemma fix_go_match (prev : option ascii) (k ws ds post : string) :
  Js.is_word_opt prev = false → is_paging_keyword k →
  ws ≠ EmptyString → all_space ws → ds ≠ EmptyString → all_digits ds →
  Driver.fix_go prev 0 (k +:+ ws +:+ "[" +:+ ds +:+ "]" +:+ post)
  = k +:+ " " +:+ ds +:+ Driver.fix_go (Some "]"%char) 0 post.
Proof.
  intros Hprev Hk Hws Hspace Hds Hdigits.
  pose proof (limit_offset_here_match prev k ws ds post Hprev Hk Hws Hspace Hds Hdigits)
    as Hhere.
  destruct (paging_keyword_cons k Hk) as (c & k' & -> & _).
  rewrite append_cons in Hhere |- *. cbn [Driver.fix_go]. rewrite Hhere.
  do 3 f_equal.
  replace (k' +:+ ws +:+ "[" +:+ ds +:+ "]" +:+ post)
    with ((k' +:+ ws +:+ "[" +:+ ds +:+ "]") +:+ post)
    by (by rewrite !append_assoc).
  rewrite append_length, Nat.add_sub, fix_go_skip. f_equal.
  unfold previous. rewrite <- !append_assoc.
  by rewrite (last_code_unit_append _ "]").
Qed.

Lemma first_bracket_unique (a a' r r' : string) :
  bracket_free a → bracket_free a' →
  a +:+ String "[" r = a' +:+ String "[" r' → a = a' ∧ r = r'.
Proof.
  revert a'. induction a as [|c a IH]; intros [|c' a'] Ha Ha' Heq.
  - rewrite !append_empty_l in Heq. by injection Heq as ->.
  - rewrite append_empty_l, append_cons in Heq. injection Heq as <- _.
    by apply bracket_free_open in Ha'.
  - rewrite append_empty_l, append_cons in Heq. injection Heq as -> _.
    by apply bracket_free_open in Ha.
  - rewrite !append_cons in Heq. injection Heq as <- Heq.
    apply andb_true_iff in Ha as [_ Ha]. apply andb_true_iff in Ha' as [_ Ha'].
    destruct (IH a' Ha Ha' Heq) as [-> ->]. done.
Qed.

Lemma append_eq_append (u v x w : string) :
  u +:+ v = x +:+ w →
  (∃ m, u = x +:+ m ∧ w = m +:+ v) ∨ (∃ m, x = u +:+ m ∧ v = m +:+ w).
Proof.
  revert x. induction u as [|c u IH]; intros x Heq.
  - right. exists x. by rewrite !append_empty_l in *.
  - destruct x as [|d x].
    + left. exists (String c u). by rewrite !append_empty_l in *.
    + rewrite !append_cons in Heq. injection Heq as <- Heq.
      destruct (IH x Heq) as [(m & -> & ->)|(m & -> & ->)]; [left|right]; by exists m.
Qed.

Lemma last_code_unit_all (p : ascii → bool) (s : string) (u : ascii) :
  Js.all_code_units p s = true → last_code_unit s = Some u → p u = true.
Proof.
  induction s as [|c s IH]; [done|]. intros Hs. apply andb_true_iff in Hs as [Hc Hs].
  cbn [last_code_unit]. destruct s; [by intros [= <-]|by apply IH].
Qed.

Lemma all_space_bracket_free (ws : string) : all_space ws → bracket_free ws.
Proof.
  induction ws as [|c ws IH]; [done|]. intros Hws.
  apply andb_true_iff in Hws as [Hc Hws]. unfold bracket_free. cbn [Js.all_code_units].
  rewrite bool_decide_eq_false_2 by (by apply space_not_bracket). by apply IH.
Qed.

(** No match of a branch starts before the keyword when the text before it
    has no opening bracket. *)
Lemma limit_branch_too_early (keyword p k ws r : string) :
  keyword = "limit" ∨ keyword = "offset" →
  p ≠ EmptyString → bracket_free p → is_paging_keyword k → all_space ws →
  Driver.limit_branch keyword (p +:+ k +:+ ws +:+ String "[" r) = None.
Proof.
  intros Hkeyword Hp Hfree Hk Hspace.
  destruct (Driver.limit_branch keyword _) as [[[k' ds'] after']|] eqn:Hm; [|done].
  exfalso.
  assert (is_lower_word keyword) as Hlow by (by destruct Hkeyword as [-> | ->]).
  apply (limit_branch_elim _ _ _ _ _ Hlow) in Hm
    as (ws' & Heq & Hk' & Hws' & Hspace' & _).
  destruct (paging_keyword_cons k Hk) as (c & k0 & Hkc & _ & Hlen & Hkfree & Hklast).
  assert (is_paging_keyword k') as Hk'' by (by destruct Hkeyword; subst keyword; [left|right]).
  destruct (paging_keyword_cons k' Hk'') as (_ & _ & _ & _ & Hlen' & Hkfree' & _).
  replace (p +:+ k +:+ ws +:+ String "[" r)
    with ((p +:+ k +:+ ws) +:+ String "[" r) in Heq by (by rewrite !append_assoc).
  replace (k' +:+ ws' +:+ "[" +:+ ds' +:+ "]" +:+ after')
    with ((k' +:+ ws') +:+ String "[" (ds' +:+ "]" +:+ after')) in Heq
    by (by rewrite !append_assoc).
  apply first_bracket_unique in Heq as [Heq _].
  2:{ apply bracket_free_append. split; [done|]. apply bracket_free_append.
      split; [done|]. by apply all_space_bracket_free. }
  2:{ apply bracket_free_append. split; [done|]. by apply all_space_bracket_free. }
  rewrite <- append_assoc in Heq.
  assert (∃ m, k' = p +:+ k +:+ m) as [m ->].
  { apply append_eq_append in Heq as [(m & Hpk & Hws'm)|(m & -> & _)].
    - destruct m as [|cm m].
      + exists EmptyString. by rewrite append_empty_r in Hpk |- *.
      + exfalso.
        assert (all_space (String cm m)) as Hm.
        { unfold all_space in Hspace'. rewrite Hws'm, all_code_units_append in Hspace'.
          by apply andb_true_iff in Hspace' as [? _]. }
        apply (f_equal last_code_unit) in Hpk.
        rewrite (last_code_unit_append p k) in Hpk by (by subst k).
        rewrite (last_code_unit_append k' (String cm m)) in Hpk by done.
        destruct (last_code_unit (String cm m)) as [u|] eqn:Hu;
          [|by apply last_code_unit_None in Hu].
        pose proof (last_code_unit_all _ _ _ Hm Hu) as Hus.
        rewrite (Hklast u Hpk) in Hus. done.
    - exists m. by rewrite append_assoc. }
  rewrite !append_length in Hlen'.
  destruct p as [|cp p]; [done|]. cbn [String.length] in Hlen'.
  assert (String.length p = 0 ∧ String.length m = 0 ∧ String.length k = 5)%nat
    as (Hp0 & Hm0 & Hk5) by lia.
  destruct p; [|done]. destruct m; [|done].
  assert (Js.toLowerCase k = "limit") as Hklimit.
  { destruct Hk as [Hk|Hk]; [done|].
    rewrite <- toLowerCase_length, Hk in Hk5. done. }
  rewrite append_empty_r, append_cons, append_empty_l in Hk'.
  cbn [Js.toLowerCase] in Hk'. rewrite Hklimit in Hk'.
  by destruct Hkeyword; subst keyword.
Qed.

Lemma fix_go_before_match (pre k ws r : string) (prev : option ascii) :
  bracket_free pre → is_paging_keyword k → all_space ws →
  Driver.fix_go prev 0 (pre +:+ k +:+ ws +:+ String "[" r)
  = pre +:+ Driver.fix_go (previous prev pre) 0 (k +:+ ws +:+ String "[" r).
Proof.
  intros Hfree Hk Hspace. revert prev. induction pre as [|c pre IH]; intros prev; [done|].
  rewrite previous_cons. apply andb_true_iff in Hfree as [Hc Hfree].
  assert (bracket_free (String c pre)) as Hcpre
    by (unfold bracket_free; cbn [Js.all_code_units]; by rewrite Hc).
  pose proof (limit_branch_too_early "limit" (String c pre) k ws r
                (or_introl eq_refl) ltac:(done) Hcpre Hk Hspace) as Hl.
  pose proof (limit_branch_too_early "offset" (String c pre) k ws r
                (or_intror eq_refl) ltac:(done) Hcpre Hk Hspace) as Ho.
  rewrite append_cons in Hl, Ho |- *. cbn [Driver.fix_go].
  unfold Driver.limit_offset_here. rewrite Hl, Ho.
  destruct (Js.word_boundary _ _); by rewrite (IH Hfree).
Qed.

(** X26: what the second pass rewrites.  In a text whose first opening
    bracket follows [limit] or [offset] (any letter case, not preceded by a
    letter, digit or underscore), white space, and is itself followed by
    digits and a closing bracket, the keyword is kept as written, the white
    space becomes one space and the brackets are dropped; the text before is
    copied, and the text after is processed the same way, so it is copied
    too when it has no opening bracket. *)
Theorem fix_limit_offset_rewrites (pre k ws ds post : string) :
  bracket_free pre → Js.is_word_opt (last_code_unit pre) = false →
  is_paging_keyword k →
  ws ≠ EmptyString → all_space ws → ds ≠ EmptyString → all_digits ds →
  Driver.fix_limit_offset (pre +:+ k +:+ ws +:+ "[" +:+ ds +:+ "]" +:+ post)
  = pre +:+ k +:+ " " +:+ ds +:+ Driver.fix_go (Some "]"%char) 0 post ∧
  (bracket_free post →
   Driver.fix_limit_offset (pre +:+ k +:+ ws +:+ "[" +:+ ds +:+ "]" +:+ post)
   = pre +:+ k +:+ " " +:+ ds +:+ post).
Proof.
  intros Hfree Hprev Hk Hws Hspace Hds Hdigits.
  assert (Driver.fix_limit_offset (pre +:+ k +:+ ws +:+ "[" +:+ ds +:+ "]" +:+ post)
          = pre +:+ k +:+ " " +:+ ds +:+ Driver.fix_go (Some "]"%char) 0 post) as Heq.
  { unfold Driver.fix_limit_offset.
    change ("[" +:+ ds +:+ "]" +:+ post) with (String "[" (ds +:+ "]" +:+ post)).
    rewrite (fix_go_before_match pre k ws _ None Hfree Hk Hspace).
    change (String "[" (ds +:+ "]" +:+ post)) with ("[" +:+ ds +:+ "]" +:+ post).
    rewrite fix_go_match; [done| |done..].
    unfold previous. by destruct (last_code_unit pre). }
  split; [done|]. intros Hpost. by rewrite Heq, fix_go_bracket_free.
Qed.

Lemma fix_limit_offset_rewrites_witness :
  Driver.fix_limit_offset "select * from t LIMIT [25] offset 10"
  = "select * from t LIMIT 25 offset 10".
Proof.
  refine (proj2 (fix_limit_offset_rewrites "select * from t " "LIMIT" " " "25" " offset 10"
                   _ _ _ _ _ _ _) _); try (vm_compute; reflexivity); try done.
  left. reflexivity.
Defined.

(** ** Outcomes of the substitution *)

Section SubstitutionOutcomes.
Context `{Host}.

Lemma substitute_from_outcome (params : list Value) (i : nat) (result : string) :
  match mapM formatValue params with
  | Raised error => substitute_from i params result = Raised error
  | Returned _ => ∃ text, substitute_from i params result = Returned text
  end.
Proof.
  revert i result. induction params as [|param params IH]; intros i result.
  - cbn. by eexists.
  - cbn [mapM substitute_from]. destruct (formatValue param) as [literal|error]; [|done].
    cbn. specialize (IH (S i) (Js.join (Js.split result ("$" +:+ Js.num (Z.of_nat i + 1))) literal)).
    destruct (mapM formatValue params); cbn; exact IH.
Qed.

Lemma has_literal_returns (value : Value) :
  has_literal value = true → ∃ literal, formatValue value = Returned literal.
Proof.
  revert value. fix IH 1. intros [|b|n|n|s|[t|]|bytes|items|fields] Hvalue;
    try done; try (by eexists).
  assert (∃ literals, mapM formatValue items = Returned literals) as [literals Hitems].
  { cbn [has_literal] in Hvalue. clear -IH Hvalue.
    induction items as [|item items IHitems]; [by eexists|].
    cbn [forallb] in Hvalue. apply andb_true_iff in Hvalue as [Hitem Hitems].
    destruct (IH item Hitem) as [literal Hliteral].
    destruct (IHitems Hitems) as [literals Hliterals].
    cbn [mapM]. rewrite Hliteral. cbn. rewrite Hliterals. by eexists. }
  cbn [formatValue]. rewrite Hitems.
  destruct items as [|[] [|]]; by eexists.
Qed.

Lemma substituteParams_outcome_aux (query : string) (params : list Value) :
  match mapM formatValue params with
  | Raised error => substituteParams query params = Raised error
  | Returned _ => ∃ text, substituteParams query params = Returned text
  end.
Proof.
  unfold substituteParams. destruct params as [|param params]; [cbn; by eexists|].
  cbn [length Nat.eqb]. apply substitute_from_outcome.
Qed.

Lemma mapM_Raised {A B} (f : A → Completion B) (xs : list A) (error : Thrown) :
  mapM f xs = Raised error ↔
  ∃ before x after,
    xs = before ++ x :: after ∧
    Forall (λ y, ∃ b, f y = Returned b) before ∧ f x = Raised error.
Proof.
  split.
  - induction xs as [|x xs IH]; [done|]. cbn [mapM].
    destruct (f x) as [b|e] eqn:Hx.
    + cbn. destruct (mapM f xs) as [bs|e]; [done|]. cbn. intros [= ->].
      destruct (IH eq_refl) as (before & y & after & -> & Hbefore & Hy).
      exists (x :: before), y, after. split; [done|]. split; [|done].
      constructor; [by eexists|done].
    + cbn. intros [= ->]. by exists [], x, xs.
  - intros (before & x & after & -> & Hbefore & Hx).
    induction Hbefore as [|y before [b Hy] _ IH]; cbn [mapM app].
    + by rewrite Hx.
    + rewrite Hy. cbn. by rewrite IH.
Qed.

(** X27: the substitution fails exactly when a parameter has no literal,
    and then with the error of the first such parameter, whatever the query
    text is and whether or not the placeholder of that parameter occurs in
    it. *)
Theorem substituteParams_fails_like_first_bad_parameter
    (query : string) (params : list Value) (error : Thrown) :
  substituteParams query params = Raised error ↔
  ∃ before param after,
    params = before ++ param :: after ∧
    Forall (λ p, ∃ literal, formatValue p = Returned literal) before ∧
    formatValue param = Raised error.
Proof.
  rewrite <- mapM_Raised.
  pose proof (substituteParams_outcome_aux query params) as Hout.
  destruct (mapM formatValue params) as [literals|e].
  - destruct Hout as [text ->]. split; intros Heq; discriminate Heq.
  - rewrite Hout. split; by intros [= ->].
Qed.

(** X28: parameters that hold no Invalid Date and no keyed object, at any
    depth of an array, can always be bound: every such value has a literal
    and the substitution returns a text; an Invalid Date after such values
    fails the substitution with a RangeError. *)
Theorem plain_parameters_always_bind (query : string) (params : list Value) :
  forallb has_literal params = true →
  (∃ text, substituteParams query params = Returned text) ∧
  (∀ rest, substituteParams query (params ++ VDate None :: rest)
           = Raised (JsError "RangeError" "Invalid time value")).
Proof.
  intros Hparams.
  assert (∃ literals, mapM formatValue params = Returned literals) as [literals Hliterals].
  { induction params as [|param params IH]; [by eexists|].
    cbn [forallb] in Hparams. apply andb_true_iff in Hparams as [Hparam Hparams].
    destruct (has_literal_returns param Hparam) as [literal Hliteral].
    destruct (IH Hparams) as [literals Hliterals].
    cbn [mapM]. rewrite Hliteral. cbn. rewrite Hliterals. by eexists. }
  split.
  - pose proof (substituteParams_outcome_aux query params) as Hout.
    by rewrite Hliterals in Hout.
  - intros rest. pose proof (substituteParams_outcome_aux query (params ++ VDate None :: rest)) as Hout.
    assert (mapM formatValue (params ++ VDate None :: rest)
            = Raised (JsError "RangeError" "Invalid time value")) as Hbad.
    { clear Hout Hparams. revert literals Hliterals.
      induction params as [|param params IH]; intros literals Hliterals; [done|].
      cbn [mapM app] in Hliterals |- *.
      destruct (formatValue param); [|done]. cbn in Hliterals |- *.
      destruct (mapM formatValue params) as [ls|] eqn:Hps; [|done].
      by rewrite (IH ls). }
    by rewrite Hbad in Hout.
Qed.

End SubstitutionOutcomes.

(** ** Examples *)

Lemma string_literal_reads_back_witness :
  ∃ literal,
    formatValue (H := sample_host) (VString "it's") = Returned literal ∧
    read_literal (literal +:+ " AND x = 1") = Some ("it's", " AND x = 1").
Proof.
  refine (proj1 (string_literal_reads_back (H := sample_host) "it's" " AND x = 1" _)).
  vm_compute. discriminate.
Defined.

Lemma abort_becomes_timeout_witness :
  Driver.fetchQuery (H := sample_host) aborting (sample_connection None) "SELECT 1" []
  = Raised (JsError "Error" "Query timeout after 30000ms").
Proof.
  refine (proj2 (abort_becomes_timeout (H := sample_host) aborting (sample_connection None)
                   "SELECT 1" [] "SELECT 1" "{}" eq_refl eq_refl)
            "The operation was aborted" eq_refl).
Defined.

Lemma bad_parameter_sends_nothing_witness :
  Driver.run (H := sample_host) unreachable_fetch (sample_connection None)
    "SELECT $1" (Some [VDate None])
  = Raised (JsError "RangeError" "Invalid time value").
Proof.
  refine (proj1 (bad_parameter_sends_nothing (H := sample_host) unreachable_fetch aborting
                   (sample_connection None) "SELECT $1" [VDate None]
                   (JsError "RangeError" "Invalid time value") eq_refl)).
Defined.

Lemma prepared_runs_like_run_witness :
  HttpPreparedStatement.run
    (after_all (Driver.prepare (H := sample_host) (answering sample_response)
                  (sample_connection None) "SELECT $1")
               [Bind [VNumber 1]; Run; Bind [VNumber 42]])
  = Driver.run (H := sample_host) (answering sample_response) (sample_connection None)
      "SELECT $1" (Some [VNumber 42]).
Proof.
  refine (prepared_runs_like_run (H := sample_host) (answering sample_response)
            (sample_connection None) "SELECT $1"
            [Bind [VNumber 1]; Run; Bind [VNumber 42]] _).
  intros Hin. repeat (apply elem_of_cons in Hin as [Hin|Hin]; [discriminate Hin|]).
  by apply elem_of_nil in Hin.
Defined.

Lemma plain_parameters_always_bind_witness :
  ∃ text,
    substituteParams (H := sample_host) "SELECT $1, $2" [VNumber 1; VArray [VString "a"; VNull]]
    = Returned text.
Proof.
  refine (proj1 (plain_parameters_always_bind (H := sample_host) "SELECT $1, $2"
                   [VNumber 1; VArray [VString "a"; VNull]] _)).
  vm_compute. reflexivity.
Defined.

Lemma qualified_name_shape_witness :
  validateQualifiedTableName "events" None = malformed_qualified_name.
Proof.
  refine (proj2 (qualified_name_shape "events" None) _).
  vm_compute. discriminate.
Defined.

Lemma run_returns_iff_witness :
  Driver.run (H := sample_host) (answering sample_response) (sample_connection None)
    "select * from t limit $1" (Some [VArray [VNumber 25]])
  = Returned {| columns := ["id"; "name"]; rows := [[VNumber 1; VString "a"]] |}.
Proof.
  refine (proj2 (run_returns_iff (H := sample_host) (answering sample_response)
                   (sample_connection None) "select * from t limit $1"
                   (Some [VArray [VNumber 25]])
                   {| columns := ["id"; "name"]; rows := [[VNumber 1; VString "a"]] |}) _).
  exists "select * from t limit 25", "{}", sample_response, sample_envelope.
  repeat split; vm_compute; reflexivity.
Defined.

Lemma endpoint_normalised_witness :
  Driver.this_endpoint (connect ("https://api.example.dev" +:+ "/") (Some "secret") None None)
  = "https://api.example.dev".
Proof.
  exact (proj1 (endpoint_normalised "https://api.example.dev" (Some "secret") None None)).
Defined.
